(** * unoserver: the converter (src/unoserver/converter.py)

    A shallow embedding of [UnoConverter] and of the helpers around it:
    the document classifier [get_doc_type], the scoped temporary file
    [TempFileIfNeeded], the filter registry ([get_available_import_filters],
    [get_available_export_filters], [get_filter_names], [find_filter]) and
    the conversion pipeline [convert].

    A Python string is modelled by the [string] that holds its UTF-8
    encoding: equality, [in] for an ASCII character, splitting at an ASCII
    character and the code-point order of [sorted] are then those of the
    bytes.  Builtins follow CPython 3.11: the decimal characters of
    [str.isdecimal] are those of Unicode 14.0, [int] refuses a string of
    more than 4300 digits with a ValueError, and leaving a
    [NamedTemporaryFile] whose file is gone raises FileNotFoundError.  Byte
    strings are lists of bytes.  Dictionaries are [gmap]s, sets are
    [gset]s.  Calls to the remote office engine go through a record of
    oracles that see the history of earlier calls; every call is appended
    to a log kept in the state. *)

From Stdlib Require Import ZArith Ascii String List.
From Stdlib.Strings Require Import Byte.
From stdpp Require Import base option list gmap strings sorting.

Local Open Scope string_scope.
Local Open Scope list_scope.

(** ** Strings *)

Module Str.

(** [c in s] for a pattern [c] of one character. *)
Fixpoint contains (c : ascii) (s : string) : bool :=
  match s with
  | EmptyString => false
  | String a s' => if Ascii.eqb a c then true else contains c s'
  end.

(** [s.split(c, maxsplit=1)] for a string that contains [c]: the text
    before the first [c] and the text after it.  The source only calls it
    under [c in s]; without a [c] the whole string is the first part. *)
Fixpoint split_first (c : ascii) (s : string) : string * string :=
  match s with
  | EmptyString => (EmptyString, EmptyString)
  | String a s' =>
      if Ascii.eqb a c then (EmptyString, s')
      else let '(l, r) := split_first c s' in (String a l, r)
  end.

(** The payload of a UTF-8 continuation byte. *)
Definition continuation (b : ascii) : option N :=
  let n := N_of_ascii b in
  if ((128 <=? n) && (n <? 192))%N then Some (n - 128)%N else None.

(** The code points of a string, [None] when the bytes are no UTF-8
    encoding (shortest form, at most U+10FFFF). *)
Fixpoint decode (s : string) : option (list N) :=
  match s with
  | EmptyString => Some []
  | String b0 s1 =>
      let n0 := N_of_ascii b0 in
      if (n0 <? 128)%N then cons n0 <$> decode s1
      else if (n0 <? 224)%N then
        match s1 with
        | String b1 s2 =>
            match continuation b1 with
            | Some c1 =>
                let cp := ((n0 - 192) * 64 + c1)%N in
                if ((192 <=? n0) && (128 <=? cp))%N
                then cons cp <$> decode s2 else None
            | None => None
            end
        | EmptyString => None
        end
      else if (n0 <? 240)%N then
        match s1 with
        | String b1 (String b2 s3) =>
            match continuation b1, continuation b2 with
            | Some c1, Some c2 =>
                let cp := ((n0 - 224) * 4096 + c1 * 64 + c2)%N in
                if (2048 <=? cp)%N then cons cp <$> decode s3 else None
            | _, _ => None
            end
        | _ => None
        end
      else
        match s1 with
        | String b1 (String b2 (String b3 s4)) =>
            match continuation b1, continuation b2, continuation b3 with
            | Some c1, Some c2, Some c3 =>
                let cp := ((n0 - 240) * 262144 + c1 * 4096 + c2 * 64 + c3)%N in
                if ((n0 <? 248) && (65536 <=? cp) && (cp <? 1114112))%N
                then cons cp <$> decode s4 else None
            | _, _, _ => None
            end
        | _ => None
        end
  end.

(** The code points of the digits zero of Unicode 14.0; the digits one to
    nine follow each of them. *)
Definition decimal_zeros : list N :=
  [48; 1632; 1776; 1984; 2406; 2534; 2662; 2790; 2918; 3046; 3174; 3302;
   3430; 3558; 3664; 3792; 3872; 4160; 4240; 6112; 6160; 6470; 6608; 6784;
   6800; 6992; 7088; 7232; 7248; 42528; 43216; 43264; 43472; 43504; 43600;
   44016; 65296; 66720; 68912; 69734; 69872; 69942; 70096; 70384; 70736;
   70864; 71248; 71360; 71472; 71904; 72016; 72784; 73040; 73120; 92768;
   92864; 93008; 120782; 120792; 120802; 120812; 120822; 123200; 123632;
   125264; 130032]%N.

(** The value of a decimal character, [None] for any other character. *)
Definition decimal_value (cp : N) : option N :=
  match List.find (fun zero => ((zero <=? cp) && (cp <? zero + 10))%N)
          decimal_zeros with
  | Some zero => Some (cp - zero)%N
  | None => None
  end.

(** The values of the characters of a string when all are decimal. *)
Definition digits (s : string) : option (list N) :=
  decode s ≫= mapM decimal_value.

(** [s.isdecimal()]: at least one character, all of them decimal. *)
Definition isdecimal (s : string) : bool :=
  match digits s with
  | Some (_ :: _) => true
  | _ => false
  end.

(** [sys.int_max_str_digits], at its default. *)
Definition int_max_str_digits : nat := 4300.

(** The number written by a sequence of digits. *)
Definition int_value (ds : list N) : Z :=
  fold_left (fun acc d => (10 * acc + Z.of_N d)%Z) ds 0%Z.

(** [int(s)] on a decimal string; [None] is the ValueError for a string
    of more digits than [int_max_str_digits]. *)
Definition int (s : string) : option Z :=
  match digits s with
  | Some ds =>
      if (length ds <=? int_max_str_digits)%nat then Some (int_value ds)
      else None
  | None => None
  end.

(** [sorted(...)] on strings: a stable merge sort on the code-point
    order. *)
Definition sorted (l : list string) : list string := merge_sort String.le l.

End Str.

(** ** Values sent to the engine *)

Inductive uno_value :=
| VBool (b : bool)
| VInt (z : Z)
| VStr (s : string)
| VAny (type_name : string) (props : list property_value)
with property_value :=
| PropertyValue (name : string) (value : uno_value).

(** ** Exceptions *)

(** An f-string is kept as the sequence of its literal and interpolated
    parts. *)
Inductive fragment :=
| Lit (s : string)
| Interp (s : string)
| InterpList (l : list string).

Inductive exn_class :=
| ValueError | RuntimeError | TypeError | AttributeError | FileNotFoundError
| UnoException.

Record exn := Exn { exn_cls : exn_class; exn_msg : list fragment }.

(** How a computation ends: with a value or with an exception. *)
Inductive outcome (A : Type) :=
| Ok (a : A)
| Raise (e : exn).
Arguments Ok {A} a.
Arguments Raise {A} e.

(** The exceptions of the builtins; their messages are left out. *)
Definition int_too_long : exn := Exn ValueError [].
Definition file_not_found : exn := Exn FileNotFoundError [].

(** ** Filter descriptors *)

(** The dictionary [prop2dict] builds from one element of the engine's
    filter enumeration; the entries the converter reads. *)
Record FilterDescriptor := {
  Name : string;
  DocumentService : string;
  Type_ : string;
  UserData : list string
}.

Definition SFX_FILTER_IMPORT : Z := 1%Z.
Definition SFX_FILTER_EXPORT : Z := 2%Z.

(** The [lambda] of [get_filter_names]:
    [x and x != "true" and "." not in x]. *)
Definition alias_ok (x : string) : bool :=
  negb (String.eqb x "") && negb (String.eqb x "true")
  && negb (Str.contains "." x).

(** The body of the outer loop of [get_filter_names] for one filter. *)
Definition add_filter_names (names : gmap string string) (flt : FilterDescriptor)
  : gmap string string :=
  foldl (fun names name => <[name := Name flt]> names)
        (<[Name flt := Name flt]> names)
        (List.filter alias_ok (UserData flt)).

Definition get_filter_names (filters : list FilterDescriptor) : gmap string string :=
  foldl add_filter_names ∅ filters.

(** The loop of [find_filter] over the export filters. *)
Fixpoint find_filter_in (filters : list FilterDescriptor)
    (import_type export_type : string) : option string :=
  match filters with
  | [] => None
  | export_filter :: rest =>
      if negb (String.eqb (DocumentService export_filter) import_type)
      then find_filter_in rest import_type export_type
      else if negb (String.eqb (Type_ export_filter) export_type)
      then find_filter_in rest import_type export_type
      else Some (Name export_filter)
  end.

(** ** The option parser of [convert] *)

(** The chain [if option_value == "false" ... elif ... isdecimal()];
    the [int] of its last branch raises on a string that is too long. *)
Definition coerce_option_value (option_value : string) : outcome uno_value :=
  if String.eqb option_value "false" then Ok (VBool false)
  else if String.eqb option_value "true" then Ok (VBool true)
  else if Str.isdecimal option_value then
    match Str.int option_value with
    | Some n => Ok (VInt n)
    | None => Raise int_too_long
    end
  else Ok (VStr option_value).

(** One turn of [for option in filter_options], on the pair
    [(export_filter_data, export_filter_options)]. *)
Definition parse_filter_option
    (acc : list property_value * list property_value) (option : string)
  : outcome (list property_value * list property_value) :=
  let '(option_name, option_value) :=
    if Str.contains "=" option
    then let '(n, v) := Str.split_first "=" option in (Some n, v)
    else (None, option) in
  match coerce_option_value option_value with
  | Raise e => Raise e
  | Ok option_value =>
      match option_name with
      | Some option_name =>
          Ok (acc.1 ++ [PropertyValue option_name option_value], acc.2)
      | None =>
          Ok (acc.1, acc.2 ++ [PropertyValue "FilterOptions" option_value])
      end
  end.

(** The loop, left at the first option whose turn raises. *)
Fixpoint parse_filter_loop
    (acc : list property_value * list property_value)
    (filter_options : list string)
  : outcome (list property_value * list property_value) :=
  match filter_options with
  | [] => Ok acc
  | option :: rest =>
      match parse_filter_option acc option with
      | Ok acc => parse_filter_loop acc rest
      | Raise e => Raise e
      end
  end.

Definition parse_filter_options (filter_options : list string)
  : outcome (list property_value * list property_value) :=
  parse_filter_loop ([], []) filter_options.

(** ** The world: local files, the session's caches, the engine *)

Abbreviation bytes := (list Byte.byte).

(** A document handle of the engine. *)
Definition Document := nat.

(** Calls to the engine, as they are logged. *)
Inductive Event :=
| ECatalogQuery (query : string)
| ELoad (url : string) (props : list property_value)
| ERefresh (doc : Document)
| EGetDocumentIndexes (doc : Document)
| EGetCount (doc : Document)
| EIndexUpdate (doc : Document) (i : nat)
| EGetSupportedServiceNames (doc : Document)
| EQueryTypeByURL (url : string)
| EStoreToURL (doc : Document) (url : string) (props : list property_value)
| EClose (doc : Document).

(** What the converter does not decide: the engine's answers, each a
    function of the calls made so far, and the host's path functions.  A
    catalog enumeration is taken as the finite list of its elements, handed
    over without an exception. *)
Record Env := {
  createSubSetEnumerationByQuery : list Event -> string -> list FilterDescriptor;
  loadComponentFromURL :
    list Event -> string -> list property_value -> outcome (option Document);
  doc_refresh : list Event -> Document -> outcome unit;
  doc_getDocumentIndexes : list Event -> Document -> outcome unit;
  indexes_getCount : list Event -> Document -> outcome nat;
  index_update : list Event -> Document -> nat -> outcome unit;
  doc_getSupportedServiceNames : list Event -> Document -> outcome (list string);
  queryTypeByURL : list Event -> string -> outcome string;
  doc_storeToURL :
    list Event -> gmap string bytes -> Document -> string ->
    list property_value -> gmap string bytes * outcome unit;
  doc_close : list Event -> Document -> outcome unit;
  (** [set.pop] on a set of strings *)
  set_pop : gset string -> string;
  (** [os.path.abspath], [uno.systemPathToFileUrl],
      [os.path.splitext(p)[-1]], the name [NamedTemporaryFile] picks *)
  abspath : string -> string;
  systemPathToFileUrl : string -> string;
  splitext_ext : string -> string;
  temp_name : gmap string bytes -> string -> string
}.

(** [set.pop] returns a member of a set that is not empty. *)
Definition set_pop_ok (E : Env) : Prop :=
  forall X : gset string, X <> ∅ -> set_pop E X ∈ X.

Record World := {
  fs : gmap string bytes;
  _import_filters : option (list FilterDescriptor);
  _export_filters : option (list FilterDescriptor);
  log : list Event
}.

(** The session right after [__init__]. *)
Definition init (files : gmap string bytes) : World :=
  {| fs := files; _import_filters := None; _export_filters := None; log := [] |}.

Definition log_event (ev : Event) (w : World) : World :=
  {| fs := fs w; _import_filters := _import_filters w;
     _export_filters := _export_filters w; log := log w ++ [ev] |}.

Definition set_fs (files : gmap string bytes) (w : World) : World :=
  {| fs := files; _import_filters := _import_filters w;
     _export_filters := _export_filters w; log := log w |}.

Definition set_import_filters (l : list FilterDescriptor) (w : World) : World :=
  {| fs := fs w; _import_filters := Some l;
     _export_filters := _export_filters w; log := log w |}.

Definition set_export_filters (l : list FilterDescriptor) (w : World) : World :=
  {| fs := fs w; _import_filters := _import_filters w;
     _export_filters := Some l; log := log w |}.

(** ** A state and exception monad *)

Definition M (A : Type) : Type := World -> outcome A * World.

Definition ret {A} (a : A) : M A := fun w => (Ok a, w).

Definition raise {A} (e : exn) : M A := fun w => (Raise e, w).

Definition bind {A B} (m : M A) (f : A -> M B) : M B :=
  fun w =>
    match m w with
    | (Ok a, w') => f a w'
    | (Raise e, w') => (Raise e, w')
    end.

Declare Scope conv_scope.
Delimit Scope conv_scope with conv.
Notation "x <- m ;; k" := (bind m (fun x => k))
  (at level 100, m at next level, right associativity) : conv_scope.
Notation "m ;;; k" := (bind m (fun _ => k))
  (at level 100, right associativity) : conv_scope.
Local Open Scope conv_scope.

(** [try: body finally: cleanup]: the cleanup runs on every exit of the
    body; an exception of the cleanup replaces the body's outcome. *)
Definition try_finally {A} (body : M A) (cleanup : M unit) : M A :=
  fun w =>
    let '(r, w1) := body w in
    match cleanup w1 with
    | (Ok _, w2) => (r, w2)
    | (Raise e, w2) => (Raise e, w2)
    end.

(** A step that ends as [r] and touches nothing of the world. *)
Definition lift {A} (r : outcome A) : M A := fun w => (r, w).

(** [try: body except ...]: the outcome of the body as a value. *)
Definition attempt {A} (body : M A) : M (outcome A) :=
  fun w => let '(r, w1) := body w in (Ok r, w1).

(** [for x in l: body x], stopping at the first exception. *)
Fixpoint for_each {A} (l : list A) (body : A -> M unit) : M unit :=
  match l with
  | [] => ret tt
  | x :: l' => body x ;;; for_each l' body
  end.

(** A call to the engine: the answer depends on the calls made before, and
    the call is logged whatever its outcome. *)
Definition remote {A} (ev : Event) (answer : list Event -> outcome A) : M A :=
  fun w => (answer (log w), log_event ev w).

(** Truthiness of an optional string: [None] and [""] are false. *)
Definition nonempty (o : option string) : option string :=
  match o with
  | Some s => if String.eqb s "" then None else Some s
  | None => None
  end.

(** ** Local files *)

(** [Path(p).exists()] *)
Definition path_exists (p : string) : M bool :=
  fun w => (Ok (bool_decide (is_Some (fs w !! p))), w).

(** [open(p, "rb").read()] *)
Definition read_file (p : string) : M bytes :=
  fun w =>
    match fs w !! p with
    | Some content => (Ok content, w)
    | None => (Raise file_not_found, w)
    end.

(** [tempfile.NamedTemporaryFile(suffix=suffix)]: a new, empty file. *)
Definition NamedTemporaryFile (E : Env) (suffix : string) : M string :=
  fun w =>
    let name := temp_name E (fs w) suffix in
    (Ok name, set_fs (<[name := []]> (fs w)) w).

(** [file.file.write(data)] *)
Definition write_file (p : string) (data : bytes) : M unit :=
  fun w => (Ok tt, set_fs (<[p := data]> (fs w)) w).

(** Leaving the [with] of [NamedTemporaryFile]: [os.unlink] deletes the
    file, and raises when the file is gone already. *)
Definition unlink (p : string) : M unit :=
  fun w =>
    match fs w !! p with
    | Some _ => (Ok tt, set_fs (delete p (fs w)) w)
    | None => (Raise file_not_found, w)
    end.

(** [with TempFileIfNeeded(path, suffix, data) as p: body p] *)
Definition TempFileIfNeeded {A} (E : Env) (path : option string)
    (suffix : string) (data : option bytes) (body : string -> M A) : M A :=
  match nonempty path with
  | Some path => body path
  | None =>
      name <- NamedTemporaryFile E suffix ;;
      try_finally
        ((match data with
          | Some (b :: rest) => write_file name (b :: rest)
          | _ => ret tt
          end) ;;;
         body name)
        (unlink name)
  end.

(** ** The document classifier *)

Definition DOC_TYPES : gset string :=
  {[ "com.sun.star.sheet.SpreadsheetDocument";
     "com.sun.star.text.TextDocument";
     "com.sun.star.presentation.PresentationDocument";
     "com.sun.star.drawing.DrawingDocument";
     "com.sun.star.sdb.DocumentDataSource";
     "com.sun.star.formula.FormulaProperties";
     "com.sun.star.script.BasicIDE";
     "com.sun.star.text.WebDocument" ]}.

Definition unknown_document_type : exn :=
  Exn RuntimeError
    [Lit "The input document is of an unknown document type. This is probably a bug.
Please create an issue at https://github.com/unoconv/unoserver."].

Definition get_doc_type (E : Env) (doc : Document) : M string :=
  names <- remote (EGetSupportedServiceNames doc)
             (fun h => doc_getSupportedServiceNames E h doc) ;;
  let types := DOC_TYPES ∩ list_to_set names in
  if decide (types = ∅) then raise unknown_document_type
  else ret (set_pop E types).

(** ** The filter registry *)

Definition import_query : string := "getSortedFilterList():iflags=1".
Definition export_query : string := "getSortedFilterList():iflags=2".

(** The [while hasMoreElements()] loop: every element of the enumeration is
    appended to the list that was stored in the cache field. *)
Definition drain (enumeration : list FilterDescriptor) : list FilterDescriptor :=
  foldl (fun cache element => cache ++ [element]) [] enumeration.

Definition get_available_import_filters (E : Env) : M (list FilterDescriptor) :=
  fun w =>
    match _import_filters w with
    | Some cached => (Ok cached, w)
    | None =>
        let import_filters :=
          createSubSetEnumerationByQuery E (log w) import_query in
        let cache := drain import_filters in
        (Ok cache,
         set_import_filters cache (log_event (ECatalogQuery import_query) w))
    end.

Definition get_available_export_filters (E : Env) : M (list FilterDescriptor) :=
  fun w =>
    match _export_filters w with
    | Some cached => (Ok cached, w)
    | None =>
        let export_filters :=
          createSubSetEnumerationByQuery E (log w) export_query in
        let cache := drain export_filters in
        (Ok cache,
         set_export_filters cache (log_event (ECatalogQuery export_query) w))
    end.

Definition find_filter (E : Env) (import_type export_type : string)
  : M (option string) :=
  filters <- get_available_export_filters E ;;
  ret (find_filter_in filters import_type export_type).

(** [sorted(names.keys())] and [sorted(names)] *)
Definition sorted_keys (names : gmap string string) : list string :=
  Str.sorted (map_to_list names).*1.

(** ** The conversion *)

Record Request := {
  inpath : option string;
  indata : option bytes;
  outpath : option string;
  convert_to : option string;
  filtername : option string;
  filter_options : list string;
  update_index : bool;
  infiltername : option string
}.

Definition no_import_filter (name : string) (infilters : gmap string string) : exn :=
  Exn ValueError
    [Lit "There is no '"; Interp name;
     Lit "' import filter. Available filters: ";
     InterpList (sorted_keys infilters)].

Definition no_export_filter (name : string) (names : gmap string string) : exn :=
  Exn RuntimeError
    [Lit "There is no '"; Interp name;
     Lit "' export-filter. Available filters: ";
     InterpList (sorted_keys names)].

Definition path_does_not_exist (input_path : string) : exn :=
  Exn RuntimeError [Lit "Path "; Interp input_path; Lit " does not exist."].

Definition could_not_load (rq : Request) : exn :=
  Exn RuntimeError
    [Lit "Could not load document ";
     Interp (default "<remote file>" (nonempty (inpath rq)));
     Lit " using the ";
     Interp (default "default" (nonempty (infiltername rq)));
     Lit " filter."].

Definition unknown_export_type (extension : string) : exn :=
  Exn RuntimeError
    [Lit "Unknown export file type, unknown extension '"; Interp extension;
     Lit "'"].

Definition no_filter_found (import_type export_type : string) : exn :=
  Exn RuntimeError
    [Lit "Could not find an export filter from "; Interp import_type;
     Lit " to "; Interp export_type].

(** Lines 199-209: the load options, with the import filter when one is
    named. *)
Definition input_properties (E : Env) (rq : Request) : M (list property_value) :=
  let input_props := [PropertyValue "ReadOnly" (VBool true)] in
  match nonempty (infiltername rq) with
  | Some name =>
      filters <- get_available_import_filters E ;;
      let infilters := get_filter_names filters in
      match infilters !! name with
      | Some canonical =>
          ret (input_props ++ [PropertyValue "FilterName" (VStr canonical)])
      | None => raise (no_import_filter name infilters)
      end
  | None => ret input_props
  end.

(** Lines 238-253: [for ii in range(2)], here [passes] turns. *)
Fixpoint update_indexes (E : Env) (passes : nat) (document : Document) : M unit :=
  match passes with
  | O => ret tt
  | S passes' =>
      r <- attempt
             (remote (ERefresh document) (fun h => doc_refresh E h document) ;;;
              remote (EGetDocumentIndexes document)
                (fun h => doc_getDocumentIndexes E h document)) ;;
      match r with
      | Raise (Exn AttributeError _) => ret tt
      | Raise e => raise e
      | Ok _ =>
          count <- remote (EGetCount document)
                     (fun h => indexes_getCount E h document) ;;
          for_each (seq 0 count)
            (fun i => remote (EIndexUpdate document i)
                        (fun h => index_update E h document i)) ;;;
          update_indexes E passes' document
      end
  end.

(** Lines 277-291: the export filter, named by the caller or looked up. *)
Definition select_export_filter (E : Env) (rq : Request)
    (import_type export_type : string) : M string :=
  match filtername rq with
  | Some name =>
      filters <- get_available_export_filters E ;;
      let available_filter_names := get_filter_names filters in
      match available_filter_names !! name with
      | Some _ => ret name
      | None => raise (no_export_filter name available_filter_names)
      end
  | None =>
      found <- find_filter E import_type export_type ;;
      match found with
      | Some name => ret name
      | None => raise (no_filter_found import_type export_type)
      end
  end.

(** Lines 324-340 *)
Definition output_properties (name : string)
    (export_filter_data export_filter_options : list property_value)
  : list property_value :=
  [PropertyValue "FilterName" (VStr name); PropertyValue "Overwrite" (VBool true)]
  ++ (match export_filter_data with
      | [] => []
      | _ :: _ =>
          [PropertyValue "FilterData"
             (VAny "[]com.sun.star.beans.PropertyValue" export_filter_data)]
      end)
  ++ export_filter_options.

Definition storeToURL (E : Env) (document : Document) (url : string)
    (props : list property_value) : M unit :=
  fun w =>
    let '(files, r) := doc_storeToURL E (log w) (fs w) document url props in
    (r, set_fs files (log_event (EStoreToURL document url props) w)).

(** Lines 257-346: the body of the [try]. *)
Definition export_document (E : Env) (rq : Request) (document : Document)
  : M (option bytes) :=
  import_type <- get_doc_type E document ;;
  (* ["." + convert_to] is a TypeError when [convert_to] is None *)
  suffix <- match convert_to rq with
            | Some extension => ret ("." +:+ extension)
            | None => raise (Exn TypeError [])
            end ;;
  TempFileIfNeeded E (outpath rq) suffix None (fun output_path =>
    let export_url := systemPathToFileUrl E (abspath E output_path) in
    export_type <- remote (EQueryTypeByURL export_url)
                     (fun h => queryTypeByURL E h export_url) ;;
    if String.eqb export_type "" then
      let extension :=
        match nonempty (convert_to rq) with
        | Some extension => extension
        | None => splitext_ext E output_path
        end in
      raise (unknown_export_type extension)
    else
      name <- select_export_filter E rq import_type export_type ;;
      parsed <- lift (parse_filter_options (filter_options rq)) ;;
      let '(export_filter_data, export_filter_options) := parsed in
      let output_props :=
        output_properties name export_filter_data export_filter_options in
      storeToURL E document export_url output_props ;;;
      match outpath rq with
      | None => output <- read_file output_path ;; ret (Some output)
      | Some _ => ret None
      end).

Definition close (E : Env) (document : Document) : M unit :=
  remote (EClose document) (fun h => doc_close E h document).

(** Lines 211-349: what runs inside [with TempFileIfNeeded(inpath, ...)]. *)
Definition convert_input (E : Env) (rq : Request)
    (input_props : list property_value) (input_path : string)
  : M (option bytes) :=
  found <- path_exists input_path ;;
  if negb found then raise (path_does_not_exist input_path)
  else
    let import_path := systemPathToFileUrl E (abspath E input_path) in
    loaded <- remote (ELoad import_path input_props)
                (fun h => loadComponentFromURL E h import_path input_props) ;;
    match loaded with
    | None => raise (could_not_load rq)
    | Some document =>
        (if update_index rq then update_indexes E 2 document else ret tt) ;;;
        try_finally (export_document E rq document) (close E document)
    end.

Definition convert (E : Env) (rq : Request) : M (option bytes) :=
  input_props <- input_properties E rq ;;
  TempFileIfNeeded E (inpath rq) "" (indata rq) (convert_input E rq input_props).

(** [flt] writes the key [k]: [k] is its name or one of its accepted
    aliases. *)
Definition writes_key (flt : FilterDescriptor) (k : string) : Prop :=
  k = Name flt \/ (k ∈ UserData flt /\ alias_ok k = true).

(** ** Sample data *)

Module Sample.

Definition excel95 : FilterDescriptor :=
  {| Name := "MS Excel 5.0/95";
     DocumentService := "com.sun.star.sheet.SpreadsheetDocument";
     Type_ := "calc_MS_Excel_5095";
     UserData := [""; "true"; "a/b"; "xls.bak"] |}.

Definition html_web : FilterDescriptor :=
  {| Name := "HTML";
     DocumentService := "com.sun.star.text.WebDocument";
     Type_ := "generic_HTML";
     UserData := [] |}.

Definition html_writer : FilterDescriptor :=
  {| Name := "HTML (StarWriter)";
     DocumentService := "com.sun.star.text.TextDocument";
     Type_ := "generic_HTML";
     UserData := ["HTML"; ""; "true"] |}.

Definition writer_pdf : FilterDescriptor :=
  {| Name := "writer_pdf_Export";
     DocumentService := "com.sun.star.text.TextDocument";
     Type_ := "pdf_Portable_Document_Format";
     UserData := ["pdf"] |}.

Definition writer8 : FilterDescriptor :=
  {| Name := "writer8";
     DocumentService := "com.sun.star.text.TextDocument";
     Type_ := "writer8";
     UserData := ["CXML"; "odt"] |}.


Definition text_services : list string :=
  ["com.sun.star.document.OfficeDocument";
   "com.sun.star.text.GenericTextDocument";
   "com.sun.star.text.TextDocument"].

Definition pdf_bytes : bytes := ["%"; "P"; "D"; "F"]%byte.

(** An engine with two import and three export filters that loads every
    file as document 7 and stores a PDF at the path of the URL; the outcome
    of [refresh] and the service names of the document are left open. *)
Definition office (refresh : outcome unit) (services : list string) : Env :=
  {| createSubSetEnumerationByQuery := fun _ query =>
       if String.eqb query import_query then [writer8; html_web]
       else [writer_pdf; html_writer; excel95];
     loadComponentFromURL := fun _ _ _ => Ok (Some 7%nat);
     doc_refresh := fun _ _ => refresh;
     doc_getDocumentIndexes := fun _ _ => Ok tt;
     indexes_getCount := fun _ _ => Ok 1%nat;
     index_update := fun _ _ _ => Ok tt;
     doc_getSupportedServiceNames := fun _ _ => Ok services;
     queryTypeByURL := fun _ _ => Ok "pdf_Portable_Document_Format";
     doc_storeToURL := fun _ files _ url _ =>
       (<[String.substring 7 (String.length url - 7) url := pdf_bytes]> files,
        Ok tt);
     doc_close := fun _ _ => Ok tt;
     set_pop := fun X => hd "" (elements X);
     abspath := fun p => p;
     systemPathToFileUrl := fun p => "file://" +:+ p;
     splitext_ext := fun _ => "";
     temp_name := fun _ suffix => "/tmp/tmpa1b2c3" +:+ suffix |}.

Definition files : gmap string bytes := {[ "/srv/in.odt" := ["P"; "K"]%byte ]}.

Definition request (inpath outpath convert_to filtername infiltername : option string)
  : Request :=
  {| inpath := inpath; indata := None; outpath := outpath;
     convert_to := convert_to; filtername := filtername;
     filter_options := []; update_index := true;
     infiltername := infiltername |}.

Definition engine : Env := office (Ok tt) text_services.

(** A text document to PDF, returned as bytes. *)
Definition to_pdf : Request :=
  request (Some "/srv/in.odt") None (Some "pdf") None None.


(** The same with an export filter name that no filter has. *)
Definition bad_export_name : Request :=
  request (Some "/srv/in.odt") None (Some "pdf") (Some "nope") None.



(** An output path and no extension. *)
Definition to_path : Request :=
  request (Some "/srv/in.odt") (Some "/srv/out.pdf") None None None.

(** An output path together with an extension. *)
Definition to_path_pdf : Request :=
  request (Some "/srv/in.odt") (Some "/srv/out.pdf") (Some "pdf") None None.

(** An engine whose [refresh] fails with an exception of its own. *)
Definition broken_refresh : Env :=
  office (Raise (Exn UnoException [])) text_services.

End Sample.

(** The value text of an option: what follows its first ['='], or all of
    it. *)
Definition option_value (option : string) : string :=
  if Str.contains "=" option then (Str.split_first "=" option).2 else option.

(** The property [name] with the coerced [value]. *)
Definition coerced_entry (name value : string) : outcome property_value :=
  match coerce_option_value value with
  | Ok v => Ok (PropertyValue name v)
  | Raise e => Raise e
  end.

(** The entry one option string adds to [export_filter_data]. *)
Definition named_entry (option : string) : outcome property_value :=
  coerced_entry (Str.split_first "=" option).1 (Str.split_first "=" option).2.

(** The entry one option string adds to [export_filter_options]. *)
Definition bare_entry (option : string) : outcome property_value :=
  coerced_entry "FilterOptions" option.

(** The options that hold ['='], and those that do not, in input order. *)
Definition named_options (filter_options : list string) : list string :=
  List.filter (Str.contains "=") filter_options.

Definition bare_options (filter_options : list string) : list string :=
  List.filter (fun o => negb (Str.contains "=" o)) filter_options.

(** The number of characters of a string; 0 when it is malformed. *)
Definition characters (s : string) : nat :=
  match Str.decode s with
  | Some cps => length cps
  | None => 0
  end.

(** A filter serves the pair of types. *)
Definition serves (import_type export_type : string) (flt : FilterDescriptor) : Prop :=
  DocumentService flt = import_type /\ Type_ flt = export_type.

(** [m] keeps the invariant [I] of the world, whatever its outcome. *)
Definition preserves {A} (I : World -> Prop) (m : M A) : Prop :=
  forall w, I w -> I (m w).2.

Definition is_catalog_query (ev : Event) : bool :=
  match ev with ECatalogQuery _ => true | _ => false end.

Definition is_store (ev : Event) : bool :=
  match ev with EStoreToURL _ _ _ => true | _ => false end.

Definition is_close (ev : Event) : bool :=
  match ev with EClose _ => true | _ => false end.

(** ** A session *)

(** What a client does with one converter object; [Outside] is the rest of
    the system changing the local files between two calls. *)
Inductive Call :=
| CallImportFilters
| CallExportFilters
| CallFindFilter (import_type export_type : string)
| CallConvert (rq : Request)
| Outside (files : gmap string bytes).

Definition run_call (E : Env) (w : World) (c : Call) : World :=
  match c with
  | CallImportFilters => (get_available_import_filters E w).2
  | CallExportFilters => (get_available_export_filters E w).2
  | CallFindFilter import_type export_type =>
      (find_filter E import_type export_type w).2
  | CallConvert rq => (convert E rq w).2
  | Outside files => set_fs files w
  end.

Definition run_session (E : Env) (files : gmap string bytes) (calls : list Call)
  : World :=
  foldl (run_call E) (init files) calls.

Definition is_query_of (query : string) (ev : Event) : bool :=
  match ev with
  | ECatalogQuery q => String.eqb q query
  | _ => false
  end.

(** How often the catalog was asked with [query]. *)
Definition catalog_queries (query : string) (l : list Event) : nat :=
  length (List.filter (is_query_of query) l).

(** Each cache is filled exactly when its query was made, and that once. *)
Definition cache_inv (w : World) : Prop :=
  catalog_queries import_query (log w)
    = match _import_filters w with Some _ => 1 | None => 0 end /\
  catalog_queries export_query (log w)
    = match _export_filters w with Some _ => 1 | None => 0 end.

(** ** Reading the log *)

(** From [w0] to [w] the log only grew, by events that satisfy [P]. *)
Definition extends_log (P : Event -> Prop) (w0 w : World) : Prop :=
  exists evs, log w = log w0 ++ evs /\ Forall P evs.

(** [m] ends with an exception in every world. *)
Definition raises {A} (m : M A) : Prop :=
  forall w, exists e, (m w).1 = Raise e.

Definition is_load (ev : Event) : bool :=
  match ev with ELoad _ _ => true | _ => false end.

(** Every value [m] returns satisfies [Q]. *)
Definition returns {A} (Q : A -> Prop) (m : M A) : Prop :=
  forall w a w', m w = (Ok a, w') -> Q a.

(** ** Property sets *)

Definition pv_name (p : property_value) : string :=
  match p with PropertyValue name _ => name end.

Definition pv_value (p : property_value) : uno_value :=
  match p with PropertyValue _ value => value end.

(** [{p.Name: p.Value for p in properties}] *)
Definition prop2dict (properties : list property_value) : gmap string uno_value :=
  foldl (fun d p => <[pv_name p := pv_value p]> d) ∅ properties.

(** The calls of the index refresh. *)
Definition is_index_event (ev : Event) : bool :=
  match ev with
  | ERefresh _ | EGetDocumentIndexes _ | EGetCount _ | EIndexUpdate _ _ => true
  | _ => false
  end.

Definition is_refresh (ev : Event) : bool :=
  match ev with ERefresh _ => true | _ => false end.

(** ** The order of the calls *)

(** The step of the conversion an engine call belongs to; the catalog
    queries, made whenever a cache is first read, have none. *)
Definition phase (ev : Event) : nat :=
  match ev with
  | ECatalogQuery _ => 0
  | ELoad _ _ => 1
  | ERefresh _ | EGetDocumentIndexes _ | EGetCount _ | EIndexUpdate _ _ => 2
  | EGetSupportedServiceNames _ => 3
  | EQueryTypeByURL _ => 4
  | EStoreToURL _ _ _ => 5
  | EClose _ => 6
  end.

(** [a] may come before [b]: a call of an earlier step, or two calls of
    the index refresh. *)
Definition follows (a b : Event) : Prop :=
  phase a < phase b \/ (is_index_event a = true /\ is_index_event b = true).

(** The calls of a log that are no catalog queries. *)
Definition calls (evs : list Event) : list Event :=
  List.filter (fun ev => negb (is_catalog_query ev)) evs.

(** [m] makes its calls in order, each of a step between [lo] and [hi]. *)
Definition staged {A} (lo hi : nat) (m : M A) : Prop :=
  forall w, exists evs,
    log (m w).2 = log w ++ evs /\
    StronglySorted follows (calls evs) /\
    Forall (fun ev => lo <= phase ev <= hi) (calls evs).

(** ** More sample engines *)

Module Scenario.

(** As [Sample.office], with the answer of the load, the export type of
    the type detection and the outcome of the close left open. *)
Definition office (loaded : outcome (option Document)) (export_type : string)
    (closed : outcome unit) : Env :=
  {| createSubSetEnumerationByQuery := fun _ query =>
       if String.eqb query import_query then [Sample.writer8; Sample.html_web]
       else [Sample.writer_pdf; Sample.html_writer; Sample.excel95];
     loadComponentFromURL := fun _ _ _ => loaded;
     doc_refresh := fun _ _ => Ok tt;
     doc_getDocumentIndexes := fun _ _ => Ok tt;
     indexes_getCount := fun _ _ => Ok 1%nat;
     index_update := fun _ _ _ => Ok tt;
     doc_getSupportedServiceNames := fun _ _ => Ok Sample.text_services;
     queryTypeByURL := fun _ _ => Ok export_type;
     doc_storeToURL := fun _ files _ url _ =>
       (<[String.substring 7 (String.length url - 7) url := Sample.pdf_bytes]>
          files, Ok tt);
     doc_close := fun _ _ => closed;
     set_pop := fun X => hd "" (elements X);
     abspath := fun p => p;
     systemPathToFileUrl := fun p => "file://" +:+ p;
     splitext_ext := fun _ => ".xyz";
     temp_name := fun _ suffix => "/tmp/tmpa1b2c3" +:+ suffix |}.

(** Input given as bytes. *)
Definition from_bytes : Request :=
  {| inpath := None; indata := Some ["P"; "K"]%byte; outpath := None;
     convert_to := Some "pdf"; filtername := None; filter_options := [];
     update_index := true; infiltername := None |}.

(** An output path of unknown type, with an empty extension argument. *)
Definition to_unknown : Request :=
  Sample.request (Some "/srv/in.odt") (Some "/srv/out.xyz") (Some "") None None.

End Scenario.

(** A load that is read-only, a store that names its filter and overwrites,
    or any other call. *)
Definition guarded (ev : Event) : Prop :=
  match ev with
  | ELoad _ props =>
      exists rest, props = PropertyValue "ReadOnly" (VBool true) :: rest
  | EStoreToURL _ _ props =>
      exists name rest,
        props = PropertyValue "FilterName" (VStr name)
                :: PropertyValue "Overwrite" (VBool true) :: rest
  | _ => True
  end.

(** ** Sample strings *)

(** U+0663 ARABIC-INDIC DIGIT THREE, U+FF17 FULLWIDTH DIGIT SEVEN and
    U+1D7CE MATHEMATICAL BOLD DIGIT ZERO are decimal characters;
    U+00B2 SUPERSCRIPT TWO is a digit that is not decimal. *)
Definition arabic_indic_three : string := String "217" (String "163" "").
Definition fullwidth_seven : string :=
  String "239" (String "188" (String "151" "")).
Definition bold_zero : string :=
  String "240" (String "157" (String "159" (String "142" ""))).
Definition superscript_two : string := String "194" (String "178" "").

(** ** The scope of a temporary file *)

(** The path [TempFileIfNeeded] hands to its body: the given path, or the
    name of the new file. *)
Definition yielded_path (E : Env) (path : option string) (suffix : string)
    (w : World) : string :=
  default (temp_name E (fs w) suffix) (nonempty path).

(** The world in which the body starts: with a path the world as it is,
    without one the world with the new file, which holds the data. *)
Definition yielded_world (E : Env) (path : option string) (suffix : string)
    (data : option bytes) (w : World) : World :=
  match nonempty path with
  | Some _ => w
  | None => set_fs (<[temp_name E (fs w) suffix := default [] data]> (fs w)) w
  end.

(** Leaving the [with] after the body ended as [after]: with a path nothing
    happens; without one the file [name] is deleted, and its absence is a
    FileNotFoundError that replaces the outcome of the body. *)
Definition leave {A} (path : option string) (name : string)
    (after : outcome A * World) : outcome A * World :=
  match nonempty path with
  | Some _ => after
  | None =>
      match fs after.2 !! name with
      | Some _ => (after.1, set_fs (delete name (fs after.2)) after.2)
      | None => (Raise file_not_found, after.2)
      end
  end.

(** The close of the [finally] after the body of the [try] ended as
    [after]. *)
Definition closing {A} (E : Env) (document : Document)
    (after : outcome A * World) : outcome A * World :=
  match doc_close E (log after.2) document with
  | Ok _ => (after.1, log_event (EClose document) after.2)
  | Raise e => (Raise e, log_event (EClose document) after.2)
  end.

(** From [w], [convert] gets as far as the [try]: the import filter step
    raised nothing, the input is at [input_path], the engine loaded it as
    [document], and the index refresh, when asked for, raised nothing and
    left the world [w3]. *)
Definition opens (E : Env) (rq : Request) (w : World) (input_path : string)
    (document : Document) (w3 : World) : Prop :=
  exists input_props w1,
    input_properties E rq w = (Ok input_props, w1) /\
    input_path = yielded_path E (inpath rq) "" w1 /\
    let w2 := yielded_world E (inpath rq) "" (indata rq) w1 in
    let import_path := systemPathToFileUrl E (abspath E input_path) in
    is_Some (fs w2 !! input_path) /\
    loadComponentFromURL E (log w2) import_path input_props
    = Ok (Some document) /\
    (if update_index rq then update_indexes E 2 document else ret tt)
      (log_event (ELoad import_path input_props) w2) = (Ok tt, w3).

(** * Properties *)

(** ** The alias table *)

Lemma foldl_insert_lookup (v : string) (l : list string) (m : gmap string string) k :
  foldl (fun names name => <[name := v]> names) m l !! k =
  if decide (k ∈ l) then Some v else m !! k.
Proof.
  revert m. induction l as [|a l IH]; intros m; cbn [foldl].
  - rewrite decide_False; [done | apply not_elem_of_nil].
  - rewrite IH. destruct (decide (k = a)) as [->|Hne].
    + rewrite lookup_insert_eq.
      rewrite (decide_True (P := a ∈ a :: l)) by apply list_elem_of_here.
      by case_decide.
    + rewrite lookup_insert_ne by done.
      case_decide as H1; case_decide as H2; try done.
      * exfalso. apply H2. by apply list_elem_of_further.
      * exfalso. apply elem_of_cons in H2 as [?|?]; done.
Qed.

Lemma add_filter_names_writes names flt k :
  writes_key flt k -> add_filter_names names flt !! k = Some (Name flt).
Proof.
  intros Hw. unfold add_filter_names. rewrite foldl_insert_lookup.
  case_decide as Hin; [done|].
  destruct Hw as [->|[Hk Hok]].
  - apply lookup_insert_eq.
  - exfalso. apply Hin. apply list_elem_of_In, filter_In.
    split; [by apply list_elem_of_In | done].
Qed.

Lemma add_filter_names_other names flt k :
  ~ writes_key flt k -> add_filter_names names flt !! k = names !! k.
Proof.
  intros Hw. unfold add_filter_names. rewrite foldl_insert_lookup.
  case_decide as Hin.
  - exfalso. apply Hw. right.
    apply list_elem_of_In, filter_In in Hin as [Hin Hok].
    split; [by apply list_elem_of_In | done].
  - apply lookup_insert_ne. intros <-. apply Hw. by left.
Qed.

Lemma writes_key_dec flt k : {writes_key flt k} + {~ writes_key flt k}.
Proof.
  unfold writes_key.
  destruct (decide (k = Name flt)) as [Heq|Hne]; [left; by left|].
  destruct (decide (k ∈ UserData flt)) as [Hin|Hnin].
  - destruct (alias_ok k) eqn:Hok; [left; by right|].
    right. intros [Heq|[_ Hok']]; [by apply Hne | discriminate].
  - right. intros [Heq|[Hin _]]; [by apply Hne | by apply Hnin].
Qed.

Lemma get_filter_names_snoc filters flt :
  get_filter_names (filters ++ [flt]) =
  add_filter_names (get_filter_names filters) flt.
Proof. unfold get_filter_names. by rewrite foldl_app. Qed.

(** The last filter that writes a key decides its value. *)
Lemma get_filter_names_last before flt after k :
  writes_key flt k ->
  (forall g, g ∈ after -> ~ writes_key g k) ->
  get_filter_names (before ++ flt :: after) !! k = Some (Name flt).
Proof.
  revert before flt. induction after as [|g after IH] using rev_ind;
    intros before flt Hw Hafter.
  - rewrite get_filter_names_snoc. by apply add_filter_names_writes.
  - replace (before ++ flt :: after ++ [g]) with ((before ++ flt :: after) ++ [g])
      by (by rewrite <- app_assoc).
    rewrite get_filter_names_snoc, add_filter_names_other.
    + apply IH; [done|]. intros g' Hg'. apply Hafter.
      apply elem_of_app. by left.
    + apply Hafter. apply elem_of_app. right. apply list_elem_of_here.
Qed.

(** A key of the table was written by one of the filters, with that
    filter's name as its value. *)
Lemma get_filter_names_origin filters k v :
  get_filter_names filters !! k = Some v ->
  exists flt, flt ∈ filters /\ v = Name flt /\ writes_key flt k.
Proof.
  induction filters as [|g filters IH] using rev_ind; intros Hk.
  - unfold get_filter_names in Hk. simpl in Hk. by rewrite lookup_empty in Hk.
  - rewrite get_filter_names_snoc in Hk.
    destruct (writes_key_dec g k) as [Hw|Hw].
    + rewrite add_filter_names_writes in Hk by done.
      exists g. split; [|split; [congruence | done]].
      apply elem_of_app. right. apply list_elem_of_here.
    + rewrite add_filter_names_other in Hk by done.
      destruct (IH Hk) as (flt & Hin & Hv & Hwf).
      exists flt. split; [|done]. apply elem_of_app. by left.
Qed.

Lemma alias_ok_spec x :
  alias_ok x = true <-> x <> "" /\ x <> "true" /\ Str.contains "." x = false.
Proof.
  unfold alias_ok. rewrite !andb_true_iff, !negb_true_iff.
  rewrite !String.eqb_neq. tauto.
Qed.

(** C3, as the code has it: every key of the alias table built by
    [get_filter_names] is the canonical [Name] of one of the filters, taken
    without any test, or one of its [UserData] aliases that is not empty,
    is not ["true"] and holds no ['.']; the value is that filter's name.
    Path separators are not looked at. *)
Theorem get_filter_names_keys (filters : list FilterDescriptor) (k v : string) :
  get_filter_names filters !! k = Some v ->
  exists flt, flt ∈ filters /\ v = Name flt /\
    (k = Name flt \/
     (k ∈ UserData flt /\ k <> "" /\ k <> "true" /\ Str.contains "." k = false)).
Proof.
  intros Hk. destruct (get_filter_names_origin _ _ _ Hk) as (flt & Hin & Hv & Hw).
  exists flt. split; [done|]. split; [done|].
  destruct Hw as [?|[Hu Hok]]; [by left|].
  right. split; [done|]. by apply alias_ok_spec.
Qed.

Lemma get_filter_names_keys_witness :
  exists flt, flt ∈ [Sample.excel95] /\ "MS Excel 5.0/95" = Name flt /\
    ("a/b" = Name flt \/
     ("a/b" ∈ UserData flt /\ "a/b" <> "" /\ "a/b" <> "true" /\
      Str.contains "." "a/b" = false)).
Proof.
  apply (get_filter_names_keys [Sample.excel95] "a/b" "MS Excel 5.0/95").
  vm_compute. reflexivity.
Defined.

(** C3 as stated fails: a canonical name and an alias that hold ['/'] are
    both keys of the table. *)
Lemma get_filter_names_path_separator_key :
  ~ (forall k, is_Some (get_filter_names [Sample.excel95] !! k) ->
       k <> "" /\ k <> "true" /\ Str.contains "/" k = false).
Proof.
  intros H.
  destruct (H "a/b") as (_ & _ & Hsep).
  - exists "MS Excel 5.0/95". vm_compute. reflexivity.
  - vm_compute in Hsep. discriminate.
Qed.

(** C10, as the code has it: the canonical [Name] of every filter of the
    sequence is a key of the alias table, whatever its shape; the key maps
    to that very name unless a later filter with another name lists the
    same string among its accepted [UserData] aliases (the later entry
    overwrites the earlier one). *)
Theorem get_filter_names_canonical
    (before : list FilterDescriptor) (flt : FilterDescriptor)
    (after : list FilterDescriptor) :
  is_Some (get_filter_names (before ++ flt :: after) !! Name flt) /\
  ((forall g, g ∈ after -> Name flt ∈ UserData g -> alias_ok (Name flt) = true ->
      Name g = Name flt) ->
   get_filter_names (before ++ flt :: after) !! Name flt = Some (Name flt)).
Proof.
  revert before flt. induction after as [|g after IH] using rev_ind;
    intros before flt.
  - rewrite get_filter_names_snoc, add_filter_names_writes by (by left).
    split; [by eexists | done].
  - replace (before ++ flt :: after ++ [g]) with ((before ++ flt :: after) ++ [g])
      by (by rewrite <- app_assoc).
    rewrite get_filter_names_snoc.
    destruct (IH before flt) as [Hsome Hself].
    destruct (writes_key_dec g (Name flt)) as [Hw|Hw].
    + rewrite add_filter_names_writes by done. split; [by eexists|].
      intros Hafter. f_equal.
      destruct Hw as [?|[Hin Hok]]; [done|].
      apply Hafter; [|done..]. apply elem_of_app. right. apply list_elem_of_here.
    + rewrite add_filter_names_other by done. split; [done|].
      intros Hafter. apply Hself. intros g' Hg'. apply Hafter.
      apply elem_of_app. by left.
Qed.

Lemma get_filter_names_canonical_witness :
  get_filter_names ([Sample.html_web] ++ Sample.writer8 :: [Sample.writer_pdf])
    !! Name Sample.writer8 = Some (Name Sample.writer8).
Proof.
  apply (get_filter_names_canonical [Sample.html_web] Sample.writer8
           [Sample.writer_pdf]).
  intros g Hg Hin _. apply list_elem_of_singleton in Hg. subst g.
  simpl in Hin. apply list_elem_of_singleton in Hin. discriminate Hin.
Defined.

(** C10 as stated fails: the alias ["HTML"] of a later filter takes over
    the key of the filter named ["HTML"]. *)
Lemma get_filter_names_name_overwritten :
  ~ (forall flt, flt ∈ [Sample.html_web; Sample.html_writer] ->
       get_filter_names [Sample.html_web; Sample.html_writer] !! Name flt
       = Some (Name flt)).
Proof.
  intros H. specialize (H Sample.html_web (list_elem_of_here _ _)).
  vm_compute in H. discriminate H.
Qed.

(** ** Option parsing *)

Lemma split_first_spec (c : ascii) (s : string) :
  Str.contains c s = true ->
  exists n v, Str.split_first c s = (n, v) /\
    s = n +:+ String c v /\ Str.contains c n = false.
Proof.
  induction s as [|a s IH]; simpl; [discriminate|].
  destruct (Ascii.eqb a c) eqn:Hac; intros Hc.
  - apply Ascii.eqb_eq in Hac. subst a. by exists EmptyString, s.
  - destruct (IH Hc) as (n & v & Hsplit & Hs & Hn).
    exists (String a n), v. rewrite Hsplit. simpl. rewrite Hac.
    split; [done|]. split; [by rewrite Hs | done].
Qed.

(** [int] reads the digits as a number in base ten. *)
Lemma int_value_snoc (ds : list N) (d : N) :
  Str.int_value (ds ++ [d]) = (10 * Str.int_value ds + Z.of_N d)%Z.
Proof. unfold Str.int_value. by rewrite fold_left_app. Qed.

Lemma digits_characters (s : string) (ds : list N) :
  Str.digits s = Some ds -> characters s = length ds.
Proof.
  unfold Str.digits, characters. destruct (Str.decode s) as [cps|]; [|done].
  simpl. intros H. by apply length_mapM in H.
Qed.

Lemma isdecimal_digits (s : string) :
  Str.isdecimal s = true <-> exists d ds, Str.digits s = Some (d :: ds).
Proof.
  unfold Str.isdecimal. destruct (Str.digits s) as [[|d ds]|].
  - split; [done | by intros (? & ? & ?)].
  - split; [by exists d, ds | done].
  - split; [done | by intros (? & ? & ?)].
Qed.

(** [int] of a decimal string: its value, unless it has too many
    characters. *)
Lemma int_decimal (s : string) (ds : list N) :
  Str.digits s = Some ds ->
  Str.int s = if decide (characters s <= Str.int_max_str_digits)
              then Some (Str.int_value ds) else None.
Proof.
  intros Hd. unfold Str.int. rewrite Hd, (digits_characters _ _ Hd).
  destruct (decide _) as [Hle|Hgt].
  - by apply Nat.leb_le in Hle as ->.
  - by apply Nat.leb_nle in Hgt as ->.
Qed.

Example decode_samples :
  Str.decode "a=1" = Some [97; 61; 49]%N /\
  Str.decode arabic_indic_three = Some [1635]%N /\
  Str.decode fullwidth_seven = Some [65303]%N /\
  Str.decode bold_zero = Some [120782]%N /\
  Str.decode superscript_two = Some [178]%N /\
  Str.decode (String "255" "") = None.
Proof. by vm_compute. Qed.

Example int_samples :
  Str.int "0076" = Some 76%Z /\
  Str.int (arabic_indic_three +:+ "4" +:+ fullwidth_seven +:+ bold_zero)
  = Some 3470%Z.
Proof. by vm_compute. Qed.

Example isdecimal_samples :
  Str.isdecimal "76" = true /\ Str.isdecimal "" = false /\
  Str.isdecimal "-3" = false /\ Str.isdecimal "44,34,76" = false /\
  Str.isdecimal arabic_indic_three = true /\
  Str.isdecimal superscript_two = false.
Proof. by vm_compute. Qed.


Lemma coerce_option_value_decimal v :
  Str.isdecimal v = true ->
  exists ds, Str.digits v = Some ds /\
    coerce_option_value v =
      if decide (characters v <= Str.int_max_str_digits)
      then Ok (VInt (Str.int_value ds)) else Raise int_too_long.
Proof.
  intros Hd. unfold coerce_option_value.
  destruct (String.eqb v "false") eqn:Hf.
  { apply String.eqb_eq in Hf. subst v. discriminate Hd. }
  destruct (String.eqb v "true") eqn:Ht.
  { apply String.eqb_eq in Ht. subst v. discriminate Hd. }
  rewrite Hd. apply isdecimal_digits in Hd as (d & ds & Hds).
  exists (d :: ds). split; [done|].
  rewrite (int_decimal _ _ Hds). by destruct (decide _).
Qed.

(** The coercion raises on a decimal string of too many characters, and
    on nothing else. *)
Lemma coerce_option_value_raises v e :
  coerce_option_value v = Raise e <->
  e = int_too_long /\ Str.isdecimal v = true /\
  Str.int_max_str_digits < characters v.
Proof.
  destruct (Str.isdecimal v) eqn:Hd.
  - destruct (coerce_option_value_decimal v Hd) as (ds & _ & ->).
    destruct (decide _) as [Hle|Hgt].
    + split; [done | intros (_ & _ & Hlt); lia].
    + split; [intros [= <-]; repeat split; lia | by intros (-> & _)].
  - unfold coerce_option_value. rewrite Hd.
    split; [|by intros (_ & ? & _)].
    by destruct (String.eqb v "false"), (String.eqb v "true").
Qed.

Lemma parse_filter_option_spec acc (o : string) :
  parse_filter_option acc o =
    match coerce_option_value (option_value o) with
    | Raise e => Raise e
    | Ok v =>
        if Str.contains "=" o
        then Ok (acc.1 ++ [PropertyValue (Str.split_first "=" o).1 v], acc.2)
        else Ok (acc.1, acc.2 ++ [PropertyValue "FilterOptions" v])
    end.
Proof.
  unfold parse_filter_option, option_value.
  destruct (Str.contains "=" o); [|done].
  by destruct (Str.split_first "=" o) as [n v].
Qed.

Lemma named_entry_spec (o : string) :
  Str.contains "=" o = true ->
  named_entry o =
    match coerce_option_value (option_value o) with
    | Raise e => Raise e
    | Ok v => Ok (PropertyValue (Str.split_first "=" o).1 v)
    end.
Proof. intros Ho. unfold named_entry, coerced_entry, option_value. by rewrite Ho. Qed.

Lemma bare_entry_spec (o : string) :
  Str.contains "=" o = false ->
  bare_entry o =
    match coerce_option_value (option_value o) with
    | Raise e => Raise e
    | Ok v => Ok (PropertyValue "FilterOptions" v)
    end.
Proof. intros Ho. unfold bare_entry, coerced_entry, option_value. by rewrite Ho. Qed.

(** What the loop returns: its two lists, each grown by the entries of its
    options in input order. *)
Lemma parse_filter_loop_ok (l : list string) acc data options :
  parse_filter_loop acc l = Ok (data, options) <->
  exists data' options',
    data = acc.1 ++ data' /\ options = acc.2 ++ options' /\
    Forall2 (fun o entry => named_entry o = Ok entry) (named_options l) data' /\
    Forall2 (fun o entry => bare_entry o = Ok entry) (bare_options l) options'.
Proof.
  revert acc. induction l as [|o l IH]; intros [d0 o0]; simpl.
  - split.
    + intros [= <- <-]. exists [], []. rewrite !app_nil_r.
      repeat split; constructor.
    + intros (d' & o' & -> & -> & Hd & Ho).
      apply Forall2_nil_inv_l in Hd, Ho. subst. by rewrite !app_nil_r.
  - rewrite parse_filter_option_spec. unfold named_options, bare_options.
    simpl. destruct (Str.contains "=" o) eqn:Hc; simpl.
    + pose proof (named_entry_spec o Hc) as Hn.
      destruct (coerce_option_value (option_value o)) as [v|e].
      * rewrite IH. simpl. split.
        -- intros (d' & o' & -> & -> & Hd & Ho).
           exists (PropertyValue (Str.split_first "=" o).1 v :: d'), o'.
           rewrite <- app_assoc. repeat split; [|done]. by constructor.
        -- intros (d' & o' & -> & -> & Hd & Ho).
           apply Forall2_cons_inv_l in Hd as (x & d'' & Hx & Hd & ->).
           rewrite Hn in Hx. injection Hx as <-.
           exists d'', o'. by rewrite <- app_assoc.
      * split; [done|]. intros (d' & o' & _ & _ & Hd & _).
        apply Forall2_cons_inv_l in Hd as (x & d'' & Hx & _). congruence.
    + pose proof (bare_entry_spec o Hc) as Hn.
      destruct (coerce_option_value (option_value o)) as [v|e].
      * rewrite IH. simpl. split.
        -- intros (d' & o' & -> & -> & Hd & Ho).
           exists d', (PropertyValue "FilterOptions" v :: o').
           rewrite <- app_assoc. repeat split; [done|]. by constructor.
        -- intros (d' & o' & -> & -> & Hd & Ho).
           apply Forall2_cons_inv_l in Ho as (x & o'' & Hx & Ho & ->).
           rewrite Hn in Hx. injection Hx as <-.
           exists d', o''. by rewrite <- app_assoc.
      * split; [done|]. intros (d' & o' & _ & _ & _ & Ho).
        apply Forall2_cons_inv_l in Ho as (x & o'' & Hx & _). congruence.
Qed.





Example bare_option_values :
  parse_filter_options ["true"; "76"] =
  Ok ([], [PropertyValue "FilterOptions" (VBool true);
           PropertyValue "FilterOptions" (VInt 76)]).
Proof. reflexivity. Qed.

(** A value of 4301 digits stops the parser; one of 4300 digits does
    not. *)
Example parse_filter_options_long_value :
  parse_filter_options ["Quality=" +:+ String.concat "" (replicate 4301 "7")] =
    Raise int_too_long /\
  (exists n, parse_filter_options
               ["Quality=" +:+ String.concat "" (replicate 4300 "7")]
             = Ok ([PropertyValue "Quality" (VInt n)], [])).
Proof. split; [by vm_compute | eexists; by vm_compute]. Qed.

(** ** The filter registry *)

Lemma drain_from (cache enumeration : list FilterDescriptor) :
  foldl (fun cache element => cache ++ [element]) cache enumeration
  = cache ++ enumeration.
Proof.
  revert cache. induction enumeration as [|e l IH]; intros cache; simpl.
  - by rewrite app_nil_r.
  - rewrite IH. by rewrite <- app_assoc.
Qed.

Lemma drain_id (enumeration : list FilterDescriptor) :
  drain enumeration = enumeration.
Proof. apply (drain_from []). Qed.

Lemma find_filter_in_spec (filters : list FilterDescriptor) import_type export_type :
  (exists before flt after,
      filters = before ++ flt :: after /\
      Forall (fun g => ~ serves import_type export_type g) before /\
      serves import_type export_type flt /\
      find_filter_in filters import_type export_type = Some (Name flt))
  \/ (Forall (fun g => ~ serves import_type export_type g) filters /\
      find_filter_in filters import_type export_type = None).
Proof.
  induction filters as [|g filters IH]; simpl.
  - right. split; [constructor | done].
  - destruct (String.eqb (DocumentService g) import_type) eqn:Hd; simpl.
    + destruct (String.eqb (Type_ g) export_type) eqn:Ht; simpl.
      * left. exists [], g, filters. split; [done|]. split; [constructor|].
        apply String.eqb_eq in Hd, Ht. by split.
      * apply String.eqb_neq in Ht.
        assert (~ serves import_type export_type g) as Hg by (intros [_ ?]; done).
        destruct IH as [(before & flt & after & -> & Hb & Hs & Hr)|[Hall Hr]].
        -- left. exists (g :: before), flt, after.
           split; [done|]. split; [by constructor | done].
        -- right. split; [by constructor | done].
    + apply String.eqb_neq in Hd.
      assert (~ serves import_type export_type g) as Hg by (intros [? _]; done).
      destruct IH as [(before & flt & after & -> & Hb & Hs & Hr)|[Hall Hr]].
      * left. exists (g :: before), flt, after.
        split; [done|]. split; [by constructor | done].
      * right. split; [by constructor | done].
Qed.

Example find_filter_text_to_pdf :
  (find_filter Sample.engine "com.sun.star.text.TextDocument"
     "pdf_Portable_Document_Format" (init Sample.files)).1
  = Ok (Some "writer_pdf_Export").
Proof. reflexivity. Qed.

Example find_filter_nothing :
  (find_filter Sample.engine "com.sun.star.sheet.SpreadsheetDocument"
     "pdf_Portable_Document_Format" (init Sample.files)).1
  = Ok None.
Proof. reflexivity. Qed.

(** C5: [find_filter] returns, and what it returns is read off the export
    filters of the session (the cached list, or on first use the engine's
    answer to the export query, in the engine's order): the name of the
    first filter whose [DocumentService] and [Type] equal the two
    arguments, or [None] when no filter of the list has both. *)
Theorem find_filter_first_match (E : Env) (w : World)
    (import_type export_type : string) :
  exists filters w',
    get_available_export_filters E w = (Ok filters, w') /\
    filters = default (createSubSetEnumerationByQuery E (log w) export_query)
                (_export_filters w) /\
    _export_filters w' = Some filters /\
    ((exists before flt after,
        filters = before ++ flt :: after /\
        Forall (fun g => ~ (DocumentService g = import_type /\
                            Type_ g = export_type)) before /\
        DocumentService flt = import_type /\ Type_ flt = export_type /\
        find_filter E import_type export_type w = (Ok (Some (Name flt)), w'))
     \/ (Forall (fun g => ~ (DocumentService g = import_type /\
                             Type_ g = export_type)) filters /\
         find_filter E import_type export_type w = (Ok None, w'))).
Proof.
  unfold find_filter, bind, ret, get_available_export_filters.
  destruct (_export_filters w) as [cached|] eqn:Hc; simpl.
  - exists cached, w. split; [done|]. split; [done|]. split; [done|].
    destruct (find_filter_in_spec cached import_type export_type)
      as [(before & flt & after & -> & Hb & [Hd Ht] & Hr)|[Hall Hr]].
    + left. exists before, flt, after. by rewrite Hr.
    + right. by rewrite Hr.
  - rewrite drain_id. eexists _, _. split; [done|]. split; [done|]. split; [done|].
    destruct (find_filter_in_spec
                (createSubSetEnumerationByQuery E (log w) export_query)
                import_type export_type)
      as [(before & flt & after & Heq & Hb & [Hd Ht] & Hr)|[Hall Hr]].
    + left. exists before, flt, after. by rewrite Hr.
    + right. by rewrite Hr.
Qed.

(** ** Invariants of the world along a computation *)

Section Preservation.

Context (E : Env) (I : World -> Prop) (quiet : Event -> Prop).

Hypothesis I_log : forall ev w, quiet ev -> I w -> I (log_event ev w).
Hypothesis I_fs : forall files w, I w -> I (set_fs files w).
Hypothesis I_import : preserves I (get_available_import_filters E).
Hypothesis I_export : preserves I (get_available_export_filters E).

Lemma preserves_ret {A} (a : A) : preserves I (ret a).
Proof. by intros w Hw. Qed.

Lemma preserves_raise {A} (e : exn) : preserves I (@raise A e).
Proof. by intros w Hw. Qed.

Lemma preserves_bind {A B} (m : M A) (f : A -> M B) :
  preserves I m -> (forall a, preserves I (f a)) -> preserves I (bind m f).
Proof.
  intros Hm Hf w Hw. unfold bind. specialize (Hm w Hw).
  destruct (m w) as [[a|e] w1]; simpl in *; [by apply Hf | done].
Qed.

Lemma preserves_try_finally {A} (body : M A) (cleanup : M unit) :
  preserves I body -> preserves I cleanup ->
  preserves I (try_finally body cleanup).
Proof.
  intros Hb Hc w Hw. unfold try_finally. specialize (Hb w Hw).
  destruct (body w) as [r w1]; simpl in *. specialize (Hc w1 Hb).
  by destruct (cleanup w1) as [[[]|e] w2].
Qed.

Lemma preserves_attempt {A} (body : M A) :
  preserves I body -> preserves I (attempt body).
Proof.
  intros Hb w Hw. unfold attempt. specialize (Hb w Hw).
  by destruct (body w) as [r w1].
Qed.

Lemma preserves_for_each {A} (l : list A) (body : A -> M unit) :
  (forall x, preserves I (body x)) -> preserves I (for_each l body).
Proof.
  intros Hb. induction l as [|x l IH]; simpl.
  - apply preserves_ret.
  - apply preserves_bind; [apply Hb | by intros _].
Qed.

Lemma preserves_remote {A} ev (answer : list Event -> outcome A) :
  quiet ev -> preserves I (remote ev answer).
Proof. intros Hq w Hw. by apply I_log. Qed.

Lemma preserves_path_exists p : preserves I (path_exists p).
Proof. by intros w Hw. Qed.

Lemma preserves_read_file p : preserves I (read_file p).
Proof. intros w Hw. unfold read_file. by destruct (fs w !! p). Qed.

Lemma preserves_NamedTemporaryFile suffix :
  preserves I (NamedTemporaryFile E suffix).
Proof. intros w Hw. by apply I_fs. Qed.

Lemma preserves_write_file p data : preserves I (write_file p data).
Proof. intros w Hw. by apply I_fs. Qed.

Lemma preserves_lift {A} (r : outcome A) : preserves I (lift r).
Proof. by intros w Hw. Qed.

Lemma preserves_unlink p : preserves I (unlink p).
Proof.
  intros w Hw. unfold unlink. destruct (fs w !! p); [by apply I_fs | done].
Qed.

Lemma preserves_storeToURL document url props :
  quiet (EStoreToURL document url props) ->
  preserves I (storeToURL E document url props).
Proof.
  intros Hq w Hw. unfold storeToURL.
  destruct (doc_storeToURL E (log w) (fs w) document url props) as [files r].
  simpl. apply I_fs. by apply I_log.
Qed.

Lemma preserves_TempFileIfNeeded {A} path suffix data (body : string -> M A) :
  (forall p, preserves I (body p)) ->
  preserves I (TempFileIfNeeded E path suffix data body).
Proof.
  intros Hb. unfold TempFileIfNeeded. destruct (nonempty path); [apply Hb|].
  apply preserves_bind; [apply preserves_NamedTemporaryFile|]. intros name.
  apply preserves_try_finally; [|apply preserves_unlink].
  apply preserves_bind; [|by intros _].
  destruct data as [[|b data]|];
    [apply preserves_ret | apply preserves_write_file | apply preserves_ret].
Qed.

Lemma preserves_find_filter import_type export_type :
  preserves I (find_filter E import_type export_type).
Proof.
  apply preserves_bind; [done|]. intros filters. apply preserves_ret.
Qed.

Lemma preserves_input_properties rq : preserves I (input_properties E rq).
Proof.
  unfold input_properties. destruct (nonempty (infiltername rq)) as [name|];
    [|apply preserves_ret].
  apply preserves_bind; [done|]. intros filters.
  destruct (get_filter_names filters !! name);
    [apply preserves_ret | apply preserves_raise].
Qed.

Lemma preserves_select_export_filter rq import_type export_type :
  preserves I (select_export_filter E rq import_type export_type).
Proof.
  unfold select_export_filter. destruct (filtername rq) as [name|].
  - apply preserves_bind; [done|]. intros filters.
    destruct (get_filter_names filters !! name);
      [apply preserves_ret | apply preserves_raise].
  - apply preserves_bind; [apply preserves_find_filter|].
    intros [name|]; [apply preserves_ret | apply preserves_raise].
Qed.

Lemma preserves_get_doc_type doc :
  quiet (EGetSupportedServiceNames doc) -> preserves I (get_doc_type E doc).
Proof.
  intros Hq. apply preserves_bind; [by apply preserves_remote|]. intros names.
  cbv zeta. destruct (decide _); [apply preserves_raise | apply preserves_ret].
Qed.

Lemma preserves_update_indexes passes document :
  (forall ev, is_catalog_query ev = false -> is_store ev = false ->
              is_close ev = false -> quiet ev) ->
  preserves I (update_indexes E passes document).
Proof.
  intros Hq. induction passes as [|passes IH]; simpl; [apply preserves_ret|].
  apply preserves_bind.
  - apply preserves_attempt, preserves_bind;
      [|intros _]; apply preserves_remote; by apply Hq.
  - intros [[]|[cls msg]].
    + apply preserves_bind; [apply preserves_remote; by apply Hq|].
      intros count. apply preserves_bind; [|by intros _].
      apply preserves_for_each. intros i. apply preserves_remote. by apply Hq.
    + destruct cls; (apply preserves_ret || apply preserves_raise).
Qed.

Lemma preserves_export_document rq document :
  (forall ev, is_catalog_query ev = false -> is_close ev = false -> quiet ev) ->
  preserves I (export_document E rq document).
Proof.
  intros Hq. unfold export_document.
  apply preserves_bind; [apply preserves_get_doc_type; by apply Hq|].
  intros import_type. apply preserves_bind.
  { destruct (convert_to rq); [apply preserves_ret | apply preserves_raise]. }
  intros suffix. apply preserves_TempFileIfNeeded. intros output_path.
  apply preserves_bind; [apply preserves_remote; by apply Hq|].
  intros export_type. destruct (String.eqb export_type "");
    [apply preserves_raise|].
  apply preserves_bind; [apply preserves_select_export_filter|]. intros name.
  apply preserves_bind; [apply preserves_lift|]. intros [data options].
  apply preserves_bind; [apply preserves_storeToURL; by apply Hq|]. intros _.
  destruct (outpath rq); [apply preserves_ret|].
  apply preserves_bind; [apply preserves_read_file|]. intros output.
  apply preserves_ret.
Qed.

(** The pipeline up to the [try], for any body of the [try]. *)
Lemma preserves_convert rq :
  (forall ev, is_catalog_query ev = false -> is_store ev = false ->
              is_close ev = false -> quiet ev) ->
  (forall document,
      preserves I (try_finally (export_document E rq document)
                     (close E document))) ->
  preserves I (convert E rq).
Proof.
  intros Hq Htry. unfold convert.
  apply preserves_bind; [apply preserves_input_properties|].
  intros input_props. apply preserves_TempFileIfNeeded. intros input_path.
  unfold convert_input.
  apply preserves_bind; [apply preserves_path_exists|]. intros found.
  destruct (negb found); [apply preserves_raise|].
  apply preserves_bind; [apply preserves_remote; by apply Hq|].
  intros [document|]; [|apply preserves_raise].
  apply preserves_bind; [|intros _; apply Htry].
  destruct (update_index rq);
    [by apply preserves_update_indexes | apply preserves_ret].
Qed.

End Preservation.

(** ** The caches of the registry *)

Lemma catalog_queries_snoc query l ev :
  catalog_queries query (l ++ [ev]) =
  (catalog_queries query l + if is_query_of query ev then 1 else 0)%nat.
Proof.
  unfold catalog_queries. rewrite List.filter_app, length_app. simpl.
  by destruct (is_query_of query ev).
Qed.

Lemma cache_inv_log ev w :
  is_catalog_query ev = false -> cache_inv w -> cache_inv (log_event ev w).
Proof.
  intros Hq [Hi He]. unfold cache_inv. simpl. rewrite !catalog_queries_snoc.
  destruct ev; try discriminate Hq; simpl; by rewrite !Nat.add_0_r.
Qed.

Lemma cache_inv_fs files w : cache_inv w -> cache_inv (set_fs files w).
Proof. by intros [Hi He]. Qed.

Lemma cache_inv_import E : preserves cache_inv (get_available_import_filters E).
Proof.
  intros w [Hi He]. unfold get_available_import_filters.
  destruct (_import_filters w) as [cached|] eqn:Hc; simpl.
  - split; [by rewrite Hc | done].
  - unfold cache_inv. simpl. rewrite !catalog_queries_snoc, Hi, He. simpl.
    by rewrite Nat.add_0_r.
Qed.

Lemma cache_inv_export E : preserves cache_inv (get_available_export_filters E).
Proof.
  intros w [Hi He]. unfold get_available_export_filters.
  destruct (_export_filters w) as [cached|] eqn:Hc; simpl.
  - split; [done | by rewrite Hc].
  - unfold cache_inv. simpl. rewrite !catalog_queries_snoc, Hi, He. simpl.
    by rewrite Nat.add_0_r.
Qed.

Lemma cache_inv_convert E rq : preserves cache_inv (convert E rq).
Proof.
  apply (preserves_convert E cache_inv (fun ev => is_catalog_query ev = false)).
  - intros ev w. apply cache_inv_log.
  - apply cache_inv_fs.
  - apply cache_inv_import.
  - done.
  - intros document.
    apply preserves_try_finally.
    + apply (preserves_export_document E cache_inv
               (fun ev => is_catalog_query ev = false)).
      * intros ev w. apply cache_inv_log.
      * apply cache_inv_fs.
      * apply cache_inv_export.
      * done.
    + intros w. by apply cache_inv_log.
Qed.

Lemma cache_inv_run_call E c : forall w, cache_inv w -> cache_inv (run_call E w c).
Proof.
  intros w Hw. destruct c as [| |import_type export_type|rq|files]; simpl.
  - by apply cache_inv_import.
  - by apply cache_inv_export.
  - apply (preserves_find_filter E cache_inv); [apply cache_inv_export | done].
  - by apply cache_inv_convert.
  - by apply cache_inv_fs.
Qed.

Lemma cache_inv_run_session E files calls :
  cache_inv (run_session E files calls).
Proof.
  unfold run_session.
  induction calls as [|c calls IH] using rev_ind.
  - by split.
  - rewrite foldl_app. simpl. by apply cache_inv_run_call.
Qed.

(** A filled cache keeps its content through every call of the session. *)
Lemma import_cache_stable E c w cached :
  _import_filters w = Some cached ->
  _import_filters (run_call E w c) = Some cached.
Proof.
  set (I := fun w' : World => _import_filters w' = Some cached).
  assert (preserves I (get_available_import_filters E)) as Himport.
  { intros w' Hw'. unfold I in *. unfold get_available_import_filters.
    by rewrite Hw'. }
  assert (preserves I (get_available_export_filters E)) as Hexport.
  { intros w' Hw'. unfold I in *. unfold get_available_export_filters.
    by destruct (_export_filters w'). }
  intros Hw. change (I (run_call E w c)).
  destruct c as [| |import_type export_type|rq|files]; simpl.
  - by apply Himport.
  - by apply Hexport.
  - by apply (preserves_find_filter E I).
  - apply (preserves_convert E I (fun _ => True)); try done.
    intros document. apply preserves_try_finally.
    + by apply (preserves_export_document E I (fun _ => True)).
    + by intros w' Hw'.
  - done.
Qed.

Lemma export_cache_stable E c w cached :
  _export_filters w = Some cached ->
  _export_filters (run_call E w c) = Some cached.
Proof.
  set (I := fun w' : World => _export_filters w' = Some cached).
  assert (preserves I (get_available_import_filters E)) as Himport.
  { intros w' Hw'. unfold I in *. unfold get_available_import_filters.
    by destruct (_import_filters w'). }
  assert (preserves I (get_available_export_filters E)) as Hexport.
  { intros w' Hw'. unfold I in *. unfold get_available_export_filters.
    by rewrite Hw'. }
  intros Hw. change (I (run_call E w c)).
  destruct c as [| |import_type export_type|rq|files]; simpl.
  - by apply Himport.
  - by apply Hexport.
  - by apply (preserves_find_filter E I).
  - apply (preserves_convert E I (fun _ => True)); try done.
    intros document. apply preserves_try_finally.
    + by apply (preserves_export_document E I (fun _ => True)).
    + by intros w' Hw'.
  - done.
Qed.

Lemma get_available_import_filters_twice E w :
  exists filters w1,
    get_available_import_filters E w = (Ok filters, w1) /\
    get_available_import_filters E w1 = (Ok filters, w1) /\
    log w1 = log w ++ match _import_filters w with
                      | Some _ => []
                      | None => [ECatalogQuery import_query]
                      end /\
    (is_Some (_import_filters w) -> w1 = w).
Proof.
  unfold get_available_import_filters.
  destruct (_import_filters w) as [cached|] eqn:Hc.
  - exists cached, w. rewrite Hc. by rewrite app_nil_r.
  - eexists _, _. split; [done|]. simpl. split; [done|]. split; [done|].
    by intros [? ?].
Qed.

Lemma get_available_export_filters_twice E w :
  exists filters w1,
    get_available_export_filters E w = (Ok filters, w1) /\
    get_available_export_filters E w1 = (Ok filters, w1) /\
    log w1 = log w ++ match _export_filters w with
                      | Some _ => []
                      | None => [ECatalogQuery export_query]
                      end /\
    (is_Some (_export_filters w) -> w1 = w).
Proof.
  unfold get_available_export_filters.
  destruct (_export_filters w) as [cached|] eqn:Hc.
  - exists cached, w. rewrite Hc. by rewrite app_nil_r.
  - eexists _, _. split; [done|]. simpl. split; [done|]. split; [done|].
    by intros [? ?].
Qed.

(** C6: a call of [get_available_import_filters] (of
    [get_available_export_filters]) returns; a second call right after it
    returns the same sequence and changes nothing; the first call asks the
    engine's catalog once when the cache was empty and not at all when it
    was filled; over a whole session, whatever the client calls, each of
    the two catalog queries is made at most once; and a filled cache keeps
    its content through every later call. *)
Theorem available_filters_cached (E : Env) :
  (forall w, exists filters w1,
      get_available_import_filters E w = (Ok filters, w1) /\
      get_available_import_filters E w1 = (Ok filters, w1) /\
      log w1 = log w ++ match _import_filters w with
                        | Some _ => []
                        | None => [ECatalogQuery import_query]
                        end /\
      (is_Some (_import_filters w) -> w1 = w)) /\
  (forall w, exists filters w1,
      get_available_export_filters E w = (Ok filters, w1) /\
      get_available_export_filters E w1 = (Ok filters, w1) /\
      log w1 = log w ++ match _export_filters w with
                        | Some _ => []
                        | None => [ECatalogQuery export_query]
                        end /\
      (is_Some (_export_filters w) -> w1 = w)) /\
  (forall files calls,
      (catalog_queries import_query (log (run_session E files calls)) <= 1)%nat /\
      (catalog_queries export_query (log (run_session E files calls)) <= 1)%nat) /\
  (forall w c cached,
      (_import_filters w = Some cached ->
       _import_filters (run_call E w c) = Some cached) /\
      (_export_filters w = Some cached ->
       _export_filters (run_call E w c) = Some cached)).
Proof.
  split; [|split; [|split]].
  - apply get_available_import_filters_twice.
  - apply get_available_export_filters_twice.
  - intros files calls.
    destruct (cache_inv_run_session E files calls) as [Hi He].
    rewrite Hi, He.
    split; [destruct (_import_filters _) | destruct (_export_filters _)]; lia.
  - intros w c cached.
    split; [apply import_cache_stable | apply export_cache_stable].
Qed.

(** ** The document classifier *)

Lemma sample_set_pop_ok refresh services :
  set_pop_ok (Sample.office refresh services).
Proof.
  intros X HX. simpl.
  destruct (elements X) as [|x l] eqn:Hl.
  - exfalso. apply HX. apply leibniz_equiv. by apply elements_empty_iff.
  - simpl. apply elem_of_elements. rewrite Hl. apply list_elem_of_here.
Qed.

(** C9: the classifier reads the service names of the document; when one
    of them is among the known document services it returns a string that
    is both a known document service and one of the names; when none is,
    it raises the unknown-document-type error. *)
Theorem get_doc_type_classifies (E : Env) (w : World) (doc : Document)
    (names : list string) :
  set_pop_ok E ->
  doc_getSupportedServiceNames E (log w) doc = Ok names ->
  ((exists t, t ∈ names /\ t ∈ DOC_TYPES) ->
   exists t, get_doc_type E doc w
             = (Ok t, log_event (EGetSupportedServiceNames doc) w) /\
             t ∈ DOC_TYPES ∩ list_to_set names /\
             t ∈ DOC_TYPES /\ t ∈ names) /\
  ((forall t, t ∈ names -> t ∉ DOC_TYPES) ->
   get_doc_type E doc w
   = (Raise unknown_document_type, log_event (EGetSupportedServiceNames doc) w)).
Proof.
  intros Hpop Hnames. unfold get_doc_type, bind, remote. rewrite Hnames.
  split.
  - intros (t & Ht1 & Ht2).
    assert (DOC_TYPES ∩ list_to_set names ≠ (∅ : gset string)) as Hne.
    { intros Hempty.
      assert (t ∈ DOC_TYPES ∩ list_to_set names) as Hin.
      { apply elem_of_intersection. split; [done|]. by apply elem_of_list_to_set. }
      rewrite Hempty in Hin. by apply not_elem_of_empty in Hin. }
    rewrite decide_False by done.
    exists (set_pop E (DOC_TYPES ∩ list_to_set names)). split; [done|].
    pose proof (Hpop _ Hne) as Hin. split; [done|].
    apply elem_of_intersection in Hin as [Hd Hn].
    split; [done|]. by apply elem_of_list_to_set in Hn.
  - intros Hnone. rewrite decide_True; [done|].
    apply leibniz_equiv. apply elem_of_equiv_empty. intros t Hin.
    apply elem_of_intersection in Hin as [Hd Hn].
    apply elem_of_list_to_set in Hn. by apply (Hnone t).
Qed.

Lemma get_doc_type_classifies_witness :
  exists t, get_doc_type (Sample.office (Ok tt) Sample.text_services) 7
              (init Sample.files)
            = (Ok t, log_event (EGetSupportedServiceNames 7) (init Sample.files)) /\
            t ∈ DOC_TYPES ∩ list_to_set Sample.text_services /\
            t ∈ DOC_TYPES /\ t ∈ Sample.text_services.
Proof.
  apply (get_doc_type_classifies (Sample.office (Ok tt) Sample.text_services)
           (init Sample.files) 7 Sample.text_services).
  - apply sample_set_pop_ok.
  - reflexivity.
  - exists "com.sun.star.text.TextDocument". split.
    + unfold Sample.text_services. set_solver.
    + unfold DOC_TYPES. set_solver.
Defined.

Example get_doc_type_text :
  (get_doc_type (Sample.office (Ok tt) Sample.text_services) 7
     (init Sample.files)).1
  = Ok "com.sun.star.text.TextDocument".
Proof. vm_compute. reflexivity. Qed.

Example get_doc_type_unknown :
  (get_doc_type (Sample.office (Ok tt) ["com.sun.star.document.OfficeDocument"]) 7
     (init Sample.files)).1
  = Raise unknown_document_type.
Proof. vm_compute. reflexivity. Qed.

(** ** Reading the log *)

Lemma extends_log_refl P w : extends_log P w w.
Proof. exists []. split; [by rewrite app_nil_r | constructor]. Qed.

Lemma extends_log_event P w0 ev w :
  P ev -> extends_log P w0 w -> extends_log P w0 (log_event ev w).
Proof.
  intros Hev (evs & Hlog & Hevs). exists (evs ++ [ev]). simpl. split.
  - by rewrite Hlog, <- app_assoc.
  - apply Forall_app. split; [done | by repeat constructor].
Qed.

Lemma extends_log_fs P w0 files w :
  extends_log P w0 w -> extends_log P w0 (set_fs files w).
Proof. done. Qed.

Lemma extends_log_import P w0 E :
  P (ECatalogQuery import_query) ->
  preserves (extends_log P w0) (get_available_import_filters E).
Proof.
  intros HP w Hw. unfold get_available_import_filters.
  destruct (_import_filters w); [done|]. simpl.
  by apply (extends_log_event P w0 (ECatalogQuery import_query) w).
Qed.

Lemma extends_log_export P w0 E :
  P (ECatalogQuery export_query) ->
  preserves (extends_log P w0) (get_available_export_filters E).
Proof.
  intros HP w Hw. unfold get_available_export_filters.
  destruct (_export_filters w); [done|]. simpl.
  by apply (extends_log_event P w0 (ECatalogQuery export_query) w).
Qed.

Lemma extends_log_filter (f : Event -> bool) w0 w :
  extends_log (fun ev => f ev = false) w0 w ->
  List.filter f (log w) = List.filter f (log w0).
Proof.
  intros (evs & -> & Hevs). rewrite List.filter_app.
  replace (List.filter f evs) with (@nil Event); [by rewrite app_nil_r|].
  induction Hevs as [|ev evs Hev _ IH]; [done|]. simpl. by rewrite Hev.
Qed.

(** ** Filter names given by the caller *)


Lemma input_properties_log E rq w :
  fs (input_properties E rq w).2 = fs w /\
  extends_log (fun ev => is_catalog_query ev = true) w (input_properties E rq w).2.
Proof.
  unfold input_properties, extends_log.
  destruct (nonempty (infiltername rq)) as [name|];
    [|split; [done|]; exists []; by rewrite app_nil_r].
  unfold bind, get_available_import_filters.
  destruct (_import_filters w) as [cached|].
  - destruct (get_filter_names cached !! name); simpl;
      (split; [done|]; exists []; by rewrite app_nil_r).
  - destruct (get_filter_names _ !! name); simpl;
      (split; [done|]; exists [ECatalogQuery import_query];
       split; [done | by repeat constructor]).
Qed.

Lemma TempFileIfNeeded_given {A} E path suffix data (body : string -> M A) p :
  nonempty path = Some p ->
  TempFileIfNeeded E path suffix data body = body p.
Proof. intros Hp. unfold TempFileIfNeeded. by rewrite Hp. Qed.

Lemma TempFileIfNeeded_scope {A} E path suffix data (body : string -> M A) w :
  TempFileIfNeeded E path suffix data body w =
  leave path (yielded_path E path suffix w)
    (body (yielded_path E path suffix w) (yielded_world E path suffix data w)).
Proof.
  unfold TempFileIfNeeded, leave, yielded_path, yielded_world.
  destruct (nonempty path) as [p|]; [done|]. cbn [default].
  unfold bind at 1. unfold NamedTemporaryFile. unfold try_finally, unlink.
  set (name := temp_name E (fs w) suffix).
  assert ((match data with
           | Some (b :: rest) => write_file name (b :: rest)
           | _ => ret tt
           end) (set_fs (<[name := []]> (fs w)) w)
          = (Ok tt, set_fs (<[name := default [] data]> (fs w)) w)) as Hwrite.
  { destruct data as [[|b data]|]; simpl; try done.
    unfold write_file, set_fs. simpl. by rewrite insert_insert_eq. }
  unfold bind. rewrite Hwrite.
  destruct (body name _) as [r w1]. cbn [fst snd].
  by destruct (fs w1 !! name).
Qed.

(** After the [with] of a temporary file, the file is not there. *)
Lemma leave_gone {A} path name (after : outcome A * World) :
  nonempty path = None -> fs (leave path name after).2 !! name = None.
Proof.
  intros Hp. unfold leave. rewrite Hp.
  destruct (fs after.2 !! name) eqn:Hname; cbn [snd fs set_fs];
    [apply lookup_delete_eq | done].
Qed.

Lemma convert_input_loaded E rq input_props p w document :
  is_Some (fs w !! p) ->
  loadComponentFromURL E (log w) (systemPathToFileUrl E (abspath E p)) input_props
  = Ok (Some document) ->
  convert_input E rq input_props p w =
  bind (if update_index rq then update_indexes E 2 document else ret tt)
    (fun _ => try_finally (export_document E rq document) (close E document))
    (log_event (ELoad (systemPathToFileUrl E (abspath E p)) input_props) w).
Proof.
  intros Hp Hload. unfold convert_input.
  unfold bind at 1. unfold path_exists.
  rewrite bool_decide_eq_true_2 by done. cbn [negb].
  unfold bind at 1. unfold remote at 1. by rewrite Hload.
Qed.

Lemma get_doc_type_world E document w :
  (get_doc_type E document w).2
  = log_event (EGetSupportedServiceNames document) w.
Proof.
  unfold get_doc_type, bind, remote.
  destruct (doc_getSupportedServiceNames E (log w) document); [|done].
  cbv zeta. by destruct (decide _).
Qed.


Lemma get_available_export_filters_fs E w :
  fs (get_available_export_filters E w).2 = fs w.
Proof.
  unfold get_available_export_filters. by destruct (_export_filters w).
Qed.

(** A call that gets as far as the [try] ends as the [try] with its
    [finally] does, seen through the exit of the input's [with]. *)
Lemma convert_opens E rq w input_path document w3 :
  opens E rq w input_path document w3 ->
  convert E rq w =
  leave (inpath rq) input_path
    (closing E document (export_document E rq document w3)).
Proof.
  intros (input_props & w1 & Hprops & -> & Hexists & Hload & Hrefresh).
  cbv zeta in Hexists, Hload, Hrefresh.
  unfold convert. unfold bind at 1. rewrite Hprops.
  rewrite TempFileIfNeeded_scope. f_equal.
  rewrite (convert_input_loaded E rq input_props _ _ document Hexists Hload).
  unfold bind. rewrite Hrefresh.
  unfold try_finally, closing, close, remote.
  destruct (export_document E rq document w3) as [r w4]. cbn [fst snd].
  by destruct (doc_close E (log w4) document) as [[]|e].
Qed.



(** Leaving a [with] whose temporary file is still there changes nothing
    but that file. *)
Lemma leave_kept {A} path name (after : outcome A * World) :
  (nonempty path = None -> is_Some (fs after.2 !! name)) ->
  (leave path name after).1 = after.1 /\
  log (leave path name after).2 = log after.2 /\
  (forall p, (nonempty path = None -> p <> name) ->
     fs (leave path name after).2 !! p = fs after.2 !! p).
Proof.
  intros Hname. unfold leave. destruct (nonempty path) as [given|]; [done|].
  destruct (Hname eq_refl) as [content ->]. cbn [fst snd log fs set_fs].
  split; [done|]. split; [done|].
  intros p Hp. apply lookup_delete_ne. intros ->. by apply Hp.
Qed.

Lemma closing_spec {A} E document (after : outcome A * World) :
  (closing E document after).1
  = match doc_close E (log after.2) document with
    | Ok _ => after.1
    | Raise e => Raise e
    end /\
  log (closing E document after).2 = log after.2 ++ [EClose document] /\
  fs (closing E document after).2 = fs after.2.
Proof. unfold closing. by destruct (doc_close E (log after.2) document). Qed.




Example convert_bad_export_name :
  (convert Sample.engine Sample.bad_export_name (init Sample.files)).1 =
    Raise (Exn RuntimeError
             [Lit "There is no '"; Interp "nope";
              Lit "' export-filter. Available filters: ";
              InterpList ["HTML"; "HTML (StarWriter)"; "MS Excel 5.0/95"; "a/b";
                          "pdf"; "writer_pdf_Export"]]).
Proof. vm_compute. reflexivity. Qed.

(** ** The input file *)

Lemma convert_input_missing E rq input_props p w :
  fs w !! p = None ->
  convert_input E rq input_props p w = (Raise (path_does_not_exist p), w).
Proof.
  intros Hp. unfold convert_input, bind, path_exists. rewrite Hp.
  rewrite bool_decide_eq_false_2; [done|]. by intros [? ?].
Qed.

(** A temporary input file is there when the existence check runs. *)
Lemma temporary_input_exists E suffix w :
  let '(r, w1) := NamedTemporaryFile E suffix w in
  exists name, r = Ok name /\ (path_exists name w1).1 = Ok true.
Proof.
  unfold NamedTemporaryFile, path_exists. simpl. eexists. split; [done|].
  f_equal. apply bool_decide_eq_true_2. rewrite lookup_insert_eq. by eexists.
Qed.



(** ** Closing the document *)

(** The body of the [try] sends no close. *)
Lemma export_document_no_close E rq document w :
  List.filter is_close (log (export_document E rq document w).2)
  = List.filter is_close (log w).
Proof.
  apply extends_log_filter.
  apply (preserves_export_document E
           (extends_log (fun ev => is_close ev = false) w)
           (fun ev => is_close ev = false)).
  - intros ev w'. apply (extends_log_event (fun ev => is_close ev = false)).
  - intros files w'. apply extends_log_fs.
  - by apply extends_log_export.
  - done.
  - apply extends_log_refl.
Qed.

(** The index refresh sends no close. *)
Lemma update_indexes_no_close E passes document w :
  List.filter is_close (log (update_indexes E passes document w).2)
  = List.filter is_close (log w).
Proof.
  apply extends_log_filter.
  apply (preserves_update_indexes E
           (extends_log (fun ev => is_close ev = false) w)
           (fun ev => is_close ev = false)).
  - intros ev w'. apply (extends_log_event (fun ev => is_close ev = false)).
  - done.
  - apply extends_log_refl.
Qed.

(** Once the [try] is entered the document is closed once, as the last call
    to the engine, whatever the body did. *)
Lemma try_closes_once E rq document w :
  exists evs,
    log (try_finally (export_document E rq document) (close E document) w).2
    = log w ++ evs ++ [EClose document] /\
    List.filter is_close evs = [].
Proof.
  unfold try_finally.
  pose proof (export_document_no_close E rq document w) as Hbody.
  assert (extends_log (fun _ => True) w (export_document E rq document w).2)
    as (evs & Hlog & _).
  { apply (preserves_export_document E (extends_log (fun _ => True) w)
             (fun _ => True)).
    - intros ev w'. apply (extends_log_event (fun _ => True)).
    - intros files w'. apply extends_log_fs.
    - by apply extends_log_export.
    - done.
    - apply extends_log_refl. }
  destruct (export_document E rq document w) as [r w1]. simpl in *.
  exists evs. split.
  - unfold close, remote.
    destruct (doc_close E (log w1) document) as [[]|e]; simpl;
      by rewrite Hlog, <- app_assoc.
  - rewrite Hlog, List.filter_app in Hbody.
    rewrite <- (app_nil_r (List.filter is_close (log w))) in Hbody at 2.
    by apply app_inv_head in Hbody.
Qed.

(** What [convert_input] does to a loaded document: after an index refresh
    that ends without an exception the document is closed exactly once;
    when the index refresh raises, that exception leaves [convert] and the
    document is not closed. *)
Lemma convert_input_close_count E rq input_props p w document :
  is_Some (fs w !! p) ->
  loadComponentFromURL E (log w) (systemPathToFileUrl E (abspath E p)) input_props
  = Ok (Some document) ->
  let opened :=
    log_event (ELoad (systemPathToFileUrl E (abspath E p)) input_props) w in
  let refreshed :=
    (if update_index rq then update_indexes E 2 document else ret tt) opened in
  List.filter is_close (log (convert_input E rq input_props p w).2)
  = List.filter is_close (log w)
    ++ match refreshed.1 with Ok _ => [EClose document] | Raise _ => [] end /\
  (forall e, refreshed.1 = Raise e ->
             (convert_input E rq input_props p w).1 = Raise e).
Proof.
  intros Hp Hload opened refreshed.
  assert (List.filter is_close (log refreshed.2) = List.filter is_close (log w))
    as Hrefresh.
  { unfold refreshed. destruct (update_index rq).
    - rewrite update_indexes_no_close. unfold opened. simpl.
      rewrite List.filter_app. simpl. by rewrite app_nil_r.
    - unfold opened. simpl. rewrite List.filter_app. simpl. by rewrite app_nil_r. }
  rewrite (convert_input_loaded E rq input_props p w document Hp Hload).
  unfold bind. fold opened. fold refreshed.
  destruct refreshed as [[[]|e] w2] eqn:Hr; cbn [fst snd] in *.
  - destruct (try_closes_once E rq document w2) as (evs & Hlog & Hevs).
    rewrite Hlog, !List.filter_app, Hevs, Hrefresh. simpl. split; [done|].
    by intros e [=].
  - rewrite Hrefresh, app_nil_r. split; [done|]. by intros e' [= ->].
Qed.

(** C1 fails on the code when the index refresh raises: the engine opened
    document 7, its [refresh] raised an exception that is no
    AttributeError, [convert] ended with that exception, and no close was
    sent for the document. *)
Theorem convert_leaks_document_when_refresh_raises :
  (convert Sample.broken_refresh Sample.to_pdf (init Sample.files)).1
    = Raise (Exn UnoException []) /\
  log (convert Sample.broken_refresh Sample.to_pdf (init Sample.files)).2
    = [ELoad "file:///srv/in.odt" [PropertyValue "ReadOnly" (VBool true)];
       ERefresh 7] /\
  List.filter is_close
    (log (convert Sample.broken_refresh Sample.to_pdf (init Sample.files)).2) = [].
Proof. vm_compute. repeat split; reflexivity. Qed.

Example convert_closes_document :
  List.filter is_close
    (log (convert Sample.engine Sample.to_pdf (init Sample.files)).2)
  = [EClose 7].
Proof. vm_compute. reflexivity. Qed.

(** ** The result of a conversion *)

Lemma raises_raise {A} e : raises (@raise A e).
Proof. intros w. by exists e. Qed.

Lemma raises_bind {A B} (m : M A) (f : A -> M B) :
  (forall a, raises (f a)) -> raises (bind m f).
Proof.
  intros Hf w. unfold bind. destruct (m w) as [[a|e] w1].
  - apply Hf.
  - by exists e.
Qed.

Lemma raises_try_finally {A} (body : M A) cleanup :
  raises body -> raises (try_finally body cleanup).
Proof.
  intros Hb w. unfold try_finally. destruct (Hb w) as [e He].
  destruct (body w) as [r w1]. simpl in He. subst r.
  destruct (cleanup w1) as [[[]|e'] w2]; by eexists.
Qed.

Lemma raises_TempFileIfNeeded {A} E path suffix data (body : string -> M A) :
  (forall p, raises (body p)) -> raises (TempFileIfNeeded E path suffix data body).
Proof.
  intros Hb. unfold TempFileIfNeeded. destruct (nonempty path); [apply Hb|].
  apply raises_bind. intros name. apply raises_try_finally.
  apply raises_bind. intros _. apply Hb.
Qed.

(** Without [convert_to] the body of the [try] ends in an exception, the
    classifier's or the TypeError of ["." + None], before the output path
    is resolved. *)
Lemma export_document_without_extension E rq document :
  convert_to rq = None -> raises (export_document E rq document).
Proof.
  intros Hc. unfold export_document. rewrite Hc.
  apply raises_bind. intros import_type.
  intros w. unfold bind, raise. by eexists.
Qed.

(** A call without [convert_to] never returns. *)
Lemma convert_without_extension_raises E rq :
  convert_to rq = None -> raises (convert E rq).
Proof.
  intros Hc. unfold convert. apply raises_bind. intros input_props.
  apply raises_TempFileIfNeeded. intros input_path. unfold convert_input.
  apply raises_bind. intros found.
  destruct (negb found); [apply raises_raise|].
  apply raises_bind. intros [document|]; [|apply raises_raise].
  apply raises_bind. intros _. apply raises_try_finally.
  by apply export_document_without_extension.
Qed.

Lemma returns_ret {A} (Q : A -> Prop) a : Q a -> returns Q (ret a).
Proof. intros Ha w a' w' [= <- <-]. done. Qed.

Lemma returns_raise {A} (Q : A -> Prop) e : returns Q (raise e).
Proof. intros w a w' [=]. Qed.

Lemma returns_bind {A B} (Q : B -> Prop) (m : M A) (f : A -> M B) :
  (forall a, returns Q (f a)) -> returns Q (bind m f).
Proof.
  intros Hf w b w'. unfold bind. destruct (m w) as [[a|e] w1]; [|by intros [=]].
  apply Hf.
Qed.

Lemma returns_try_finally {A} (Q : A -> Prop) (body : M A) cleanup :
  returns Q body -> returns Q (try_finally body cleanup).
Proof.
  intros Hb w a w'. unfold try_finally.
  destruct (body w) as [r w1] eqn:Hr.
  destruct (cleanup w1) as [[[]|e] w2]; [|by intros [=]].
  intros [= -> <-]. by apply (Hb w a w1).
Qed.

Lemma returns_TempFileIfNeeded {A} (Q : A -> Prop) E path suffix data
    (body : string -> M A) :
  (forall p, returns Q (body p)) ->
  returns Q (TempFileIfNeeded E path suffix data body).
Proof.
  intros Hb. unfold TempFileIfNeeded. destruct (nonempty path); [apply Hb|].
  apply returns_bind. intros name. apply returns_try_finally.
  apply returns_bind. intros _. apply Hb.
Qed.

(** When [convert] returns, it returns bytes if [outpath] was None and
    nothing otherwise. *)
Lemma convert_result_shape E rq :
  returns (fun result => match outpath rq with
                         | None => is_Some result
                         | Some _ => result = None
                         end) (convert E rq).
Proof.
  unfold convert. apply returns_bind. intros input_props.
  apply returns_TempFileIfNeeded. intros input_path. unfold convert_input.
  apply returns_bind. intros found.
  destruct (negb found); [apply returns_raise|].
  apply returns_bind. intros [document|]; [|apply returns_raise].
  apply returns_bind. intros _. apply returns_try_finally.
  unfold export_document. apply returns_bind. intros import_type.
  apply returns_bind. intros suffix.
  apply returns_TempFileIfNeeded. intros output_path.
  apply returns_bind. intros export_type.
  destruct (String.eqb export_type ""); [apply returns_raise|].
  apply returns_bind. intros name.
  apply returns_bind. intros [data options].
  apply returns_bind. intros _.
  destruct (outpath rq); [by apply returns_ret|].
  apply returns_bind. intros output. by apply returns_ret.
Qed.

(** C4 fails on the code for a call with an output path and no extension,
    a form the docstring of [convert] allows: the call ends in a TypeError,
    nothing was stored by the engine and no file is at the output path. *)
Theorem convert_to_path_without_extension_raises :
  outpath Sample.to_path = Some "/srv/out.pdf" /\
  convert_to Sample.to_path = None /\
  (convert Sample.engine Sample.to_path (init Sample.files)).1
    = Raise (Exn TypeError []) /\
  List.filter is_store
    (log (convert Sample.engine Sample.to_path (init Sample.files)).2) = [] /\
  fs (convert Sample.engine Sample.to_path (init Sample.files)).2
    !! "/srv/out.pdf" = None.
Proof. vm_compute. repeat split; reflexivity. Qed.

Example convert_to_path_with_extension :
  (convert Sample.engine Sample.to_path_pdf (init Sample.files)).1 = Ok None /\
  fs (convert Sample.engine Sample.to_path_pdf (init Sample.files)).2
    !! "/srv/out.pdf" = Some Sample.pdf_bytes.
Proof. vm_compute. split; reflexivity. Qed.

Example convert_to_bytes :
  (convert Sample.engine Sample.to_pdf (init Sample.files)).1
    = Ok (Some Sample.pdf_bytes) /\
  fs (convert Sample.engine Sample.to_pdf (init Sample.files)).2
    = Sample.files.
Proof. vm_compute. split; reflexivity. Qed.

(** * Further properties *)

(** ** [prop2dict] *)

Lemma prop2dict_snoc properties p :
  prop2dict (properties ++ [p])
  = <[pv_name p := pv_value p]> (prop2dict properties).
Proof. unfold prop2dict. by rewrite foldl_app. Qed.

(** X1: in the dictionary [prop2dict] builds, a name is a key exactly when
    some property of the sequence has it, and its value is the value of the
    last property with that name. *)
Theorem prop2dict_lookup (properties : list property_value) (name : string) :
  (prop2dict properties !! name = None <-> name ∉ pv_name <$> properties) /\
  (forall before value after,
      properties = before ++ PropertyValue name value :: after ->
      name ∉ pv_name <$> after ->
      prop2dict properties !! name = Some value).
Proof.
  split.
  - induction properties as [|p properties IH] using rev_ind.
    + unfold prop2dict. simpl. rewrite lookup_empty. split; [|done].
      intros _. apply not_elem_of_nil.
    + rewrite prop2dict_snoc, fmap_app. simpl.
      destruct (decide (pv_name p = name)) as [<-|Hne].
      * rewrite lookup_insert_eq. split; [done|].
        intros Hnot. exfalso. apply Hnot. apply elem_of_app. right.
        apply list_elem_of_here.
      * rewrite lookup_insert_ne by done. rewrite IH. split.
        -- intros Hnot Hin. apply elem_of_app in Hin as [Hin|Hin]; [done|].
           apply list_elem_of_singleton in Hin. by apply Hne.
        -- intros Hnot Hin. apply Hnot. apply elem_of_app. by left.
  - intros before value after -> Hafter.
    induction after as [|p after IH] using rev_ind.
    + rewrite prop2dict_snoc. simpl. apply lookup_insert_eq.
    + replace (before ++ PropertyValue name value :: after ++ [p])
        with ((before ++ PropertyValue name value :: after) ++ [p])
        by (by rewrite <- app_assoc).
      rewrite prop2dict_snoc. rewrite fmap_app in Hafter.
      rewrite lookup_insert_ne.
      * apply IH. intros Hin. apply Hafter. apply elem_of_app. by left.
      * intros Heq. apply Hafter. apply elem_of_app. right. simpl.
        rewrite Heq. apply list_elem_of_here.
Qed.

Lemma prop2dict_lookup_witness :
  prop2dict [PropertyValue "Name" (VStr "writer8");
             PropertyValue "Flags" (VInt 1);
             PropertyValue "Flags" (VInt 3)] !! "Flags" = Some (VInt 3).
Proof.
  apply (proj2 (prop2dict_lookup _ "Flags")
           [PropertyValue "Name" (VStr "writer8"); PropertyValue "Flags" (VInt 1)]
           (VInt 3) []).
  - reflexivity.
  - apply not_elem_of_nil.
Defined.

(** ** More on the alias table *)

(** X2: a string is a key of the alias table exactly when some filter of
    the sequence has it as its name or lists it as a [UserData] entry that
    is not empty, is not ["true"] and holds no ['.']; the table of no
    filters is empty. *)
Theorem get_filter_names_domain (filters : list FilterDescriptor) (k : string) :
  (is_Some (get_filter_names filters !! k) <->
   exists flt, flt ∈ filters /\
     (k = Name flt \/
      (k ∈ UserData flt /\ k <> "" /\ k <> "true" /\ Str.contains "." k = false))) /\
  get_filter_names [] = ∅.
Proof.
  split; [|done]. split.
  - intros [v Hv].
    destruct (get_filter_names_origin _ _ _ Hv) as (flt & Hin & _ & Hw).
    exists flt. split; [done|]. destruct Hw as [?|[Hu Hok]]; [by left|].
    right. split; [done|]. by apply alias_ok_spec.
  - intros (flt & Hin & Hw).
    assert (writes_key flt k) as Hwk.
    { destruct Hw as [?|[Hu Hok]]; [by left|]. right. split; [done|].
      by apply alias_ok_spec. }
    clear Hw. induction filters as [|g filters IH] using rev_ind.
    + by apply elem_of_nil in Hin.
    + rewrite get_filter_names_snoc.
      destruct (writes_key_dec g k) as [Hg|Hg].
      * rewrite add_filter_names_writes by done. by eexists.
      * rewrite add_filter_names_other by done. apply IH.
        apply elem_of_app in Hin as [Hin|Hin]; [done|].
        apply list_elem_of_singleton in Hin. by subst g.
Qed.

(** X3: an alias (or name) resolves to the name of the last filter of the
    sequence that has it: later filters overwrite the entries of earlier
    ones. *)
Theorem get_filter_names_last_wins
    (before : list FilterDescriptor) (flt : FilterDescriptor)
    (after : list FilterDescriptor) (k : string) :
  k = Name flt \/ (k ∈ UserData flt /\ alias_ok k = true) ->
  (forall g, g ∈ after ->
     k <> Name g /\ ~ (k ∈ UserData g /\ alias_ok k = true)) ->
  get_filter_names (before ++ flt :: after) !! k = Some (Name flt).
Proof.
  intros Hw Hafter. apply get_filter_names_last; [done|].
  intros g Hg [Hn|Ha]; destruct (Hafter g Hg) as [Hn' Ha']; done.
Qed.

Lemma get_filter_names_last_wins_witness :
  get_filter_names ([Sample.writer_pdf] ++ Sample.html_writer :: [Sample.writer8])
    !! "HTML" = Some "HTML (StarWriter)".
Proof.
  apply (get_filter_names_last_wins [Sample.writer_pdf] Sample.html_writer
           [Sample.writer8] "HTML").
  - right. split; [|reflexivity]. simpl. apply list_elem_of_here.
  - intros g Hg. apply list_elem_of_singleton in Hg. subst g. split.
    + discriminate.
    + intros [Hin _]. simpl in Hin.
      apply elem_of_cons in Hin as [Hin|Hin]; [discriminate Hin|].
      apply list_elem_of_singleton in Hin. discriminate Hin.
Defined.

(** X4: every value of the alias table is itself a key of the table: what
    a lookup returns can be looked up again. *)
Theorem get_filter_names_values_are_keys
    (filters : list FilterDescriptor) (k v : string) :
  get_filter_names filters !! k = Some v ->
  is_Some (get_filter_names filters !! v).
Proof.
  intros Hk. destruct (get_filter_names_origin _ _ _ Hk) as (flt & Hin & -> & _).
  clear Hk. induction filters as [|g filters IH] using rev_ind.
  - by apply elem_of_nil in Hin.
  - rewrite get_filter_names_snoc.
    destruct (writes_key_dec g (Name flt)) as [Hg|Hg].
    + rewrite add_filter_names_writes by done. by eexists.
    + rewrite add_filter_names_other by done. apply IH.
      apply elem_of_app in Hin as [Hin|Hin]; [done|].
      apply list_elem_of_singleton in Hin. subst g. exfalso. apply Hg. by left.
Qed.

Lemma get_filter_names_values_are_keys_witness :
  is_Some (get_filter_names [Sample.writer_pdf; Sample.writer8]
             !! "writer_pdf_Export").
Proof.
  apply (get_filter_names_values_are_keys [Sample.writer_pdf; Sample.writer8]
           "pdf" "writer_pdf_Export").
  vm_compute. reflexivity.
Defined.

(** ** More on the option parser *)

Lemma decimal_value_bound (cp d : N) :
  Str.decimal_value cp = Some d -> (d < 10)%N.
Proof.
  unfold Str.decimal_value.
  destruct (find _ Str.decimal_zeros) as [zero|] eqn:Hfind; [|done].
  apply find_some in Hfind as [_ Hin]. intros [= <-].
  apply andb_true_iff in Hin as [Hlo Hhi].
  apply N.leb_le in Hlo. apply N.ltb_lt in Hhi. lia.
Qed.

Lemma digits_bound (s : string) (ds : list N) :
  Str.digits s = Some ds -> Forall (fun d => (d < 10)%N) ds.
Proof.
  unfold Str.digits. destruct (Str.decode s) as [cps|]; [|done]. simpl.
  intros H. apply mapM_Some_1 in H.
  induction H as [|cp d cps ds Hd _ IH]; constructor; [|done].
  by apply decimal_value_bound in Hd.
Qed.

Lemma int_value_bounds (ds : list N) :
  Forall (fun d => (d < 10)%N) ds ->
  (0 <= Str.int_value ds < 10 ^ Z.of_nat (length ds))%Z.
Proof.
  induction ds as [|d ds IH] using rev_ind; intros Hds.
  - by vm_compute.
  - apply Forall_app in Hds as [Hds Hd]. rewrite Forall_singleton in Hd.
    specialize (IH Hds).
    rewrite int_value_snoc, length_app, Nat.add_1_r, Nat2Z.inj_succ,
      Z.pow_succ_r by lia.
    assert (Z.of_N d < 10)%Z by lia. lia.
Qed.

(** X5: on a decimal string of at most 4300 characters [int] returns a
    number that is not negative and stays below ten to the number of
    characters, so leading zeros do not count and no sign can come out of an
    option value; on a longer decimal string it raises. *)
Theorem int_decimal_bounds (s : string) :
  Str.isdecimal s = true ->
  if decide (characters s <= Str.int_max_str_digits)
  then exists n, Str.int s = Some n /\
         (0 <= n < 10 ^ Z.of_nat (characters s))%Z
  else Str.int s = None.
Proof.
  intros Hd. apply isdecimal_digits in Hd as (d & ds & Hds).
  rewrite (int_decimal _ _ Hds). destruct (decide _); [|done].
  eexists. split; [done|]. rewrite (digits_characters _ _ Hds).
  by apply int_value_bounds, (digits_bound s).
Qed.

Lemma int_decimal_bounds_witness :
  exists n, Str.int "0076" = Some n /\
    (0 <= n < 10 ^ Z.of_nat (characters "0076"))%Z.
Proof. apply (int_decimal_bounds "0076"). reflexivity. Defined.

(** X6: how the coercion of an option value ends tells what the value
    was: a boolean only for the exact words ["false"] and ["true"], an
    integer only for a decimal string of at most 4300 characters (then its
    value), a ValueError only for a longer decimal string, and otherwise the
    string itself, so [""], ["True"], ["-3"] and ["1.5"] stay strings. *)
Theorem coerce_option_value_cases (v : string) :
  (forall b, coerce_option_value v = Ok (VBool b) <->
             v = (if b then "true" else "false")) /\
  (forall z, coerce_option_value v = Ok (VInt z) <->
             Str.isdecimal v = true /\
             characters v <= Str.int_max_str_digits /\ Str.int v = Some z) /\
  (forall s, coerce_option_value v = Ok (VStr s) <->
             s = v /\ v <> "false" /\ v <> "true" /\ Str.isdecimal v = false) /\
  (forall type_name props,
     coerce_option_value v <> Ok (VAny type_name props)) /\
  (forall e, coerce_option_value v = Raise e <->
             e = int_too_long /\ Str.isdecimal v = true /\
             Str.int_max_str_digits < characters v).
Proof.
  split; [|split; [|split; [|split]]]; [| | | |apply coerce_option_value_raises].
  - intros b. unfold coerce_option_value.
    destruct (String.eqb v "false") eqn:Hf;
      [apply String.eqb_eq in Hf; subst v; by destruct b|].
    destruct (String.eqb v "true") eqn:Ht;
      [apply String.eqb_eq in Ht; subst v; by destruct b|].
    apply String.eqb_neq in Hf, Ht.
    split; [|by destruct b].
    by destruct (Str.isdecimal v), (Str.int v).
  - intros z. destruct (Str.isdecimal v) eqn:Hd.
    + destruct (coerce_option_value_decimal v Hd) as (ds & Hds & ->).
      rewrite (int_decimal _ _ Hds).
      destruct (decide _) as [Hle|Hgt].
      * split; [by intros [= <-] | by intros (_ & _ & [= <-])].
      * split; [done | by intros (_ & _ & ?)].
    + split; [|by intros (? & _)].
      unfold coerce_option_value. rewrite Hd.
      by destruct (String.eqb v "false"), (String.eqb v "true").
  - intros s. destruct (Str.isdecimal v) eqn:Hd.
    + destruct (coerce_option_value_decimal v Hd) as (ds & _ & ->).
      split; [by destruct (decide _) | by intros (_ & _ & _ & ?)].
    + unfold coerce_option_value. rewrite Hd.
      destruct (String.eqb v "false") eqn:Hf;
        [apply String.eqb_eq in Hf; split; [done | by intros (_ & ? & _)]|].
      destruct (String.eqb v "true") eqn:Ht;
        [apply String.eqb_eq in Ht; split; [done | by intros (_ & _ & ? & _)]|].
      apply String.eqb_neq in Hf, Ht.
      split; [by intros [= <-] | by intros (-> & _)].
  - intros type_name props. unfold coerce_option_value.
    by destruct (String.eqb v "false"), (String.eqb v "true"),
      (Str.isdecimal v), (Str.int v).
Qed.

Example coerce_option_value_samples :
  coerce_option_value "" = Ok (VStr "") /\
  coerce_option_value "True" = Ok (VStr "True") /\
  coerce_option_value "-3" = Ok (VStr "-3") /\
  coerce_option_value "1.5" = Ok (VStr "1.5") /\
  coerce_option_value "007" = Ok (VInt 7) /\
  coerce_option_value arabic_indic_three = Ok (VInt 3) /\
  coerce_option_value superscript_two = Ok (VStr superscript_two) /\
  coerce_option_value (String.concat "" (replicate 4301 "0")) = Raise int_too_long.
Proof. by vm_compute. Qed.

Lemma split_first_absent (c : ascii) (s : string) :
  Str.contains c s = false -> Str.split_first c s = (s, EmptyString).
Proof.
  induction s as [|a s IH]; simpl; [done|].
  destruct (Ascii.eqb a c); [discriminate|]. intros Hs. by rewrite IH.
Qed.

Lemma split_first_join (c : ascii) (n v : string) :
  Str.contains c n = false -> Str.split_first c (n +:+ String c v) = (n, v).
Proof.
  induction n as [|a n IH]; simpl.
  - intros _. by rewrite Ascii.eqb_refl.
  - destruct (Ascii.eqb a c); [discriminate|]. intros Hn. by rewrite IH.
Qed.

(** X7: splitting at the first separator and joining again are inverse to
    each other: a string that holds the separator is its two parts around
    the separator, the first part holds no separator, and a name without
    separator joined to any value splits back into that name and that
    value, however many separators the value holds. *)
Theorem split_first_round_trip (c : ascii) :
  (forall s, Str.contains c s = true ->
     s = (Str.split_first c s).1 +:+ String c (Str.split_first c s).2 /\
     Str.contains c (Str.split_first c s).1 = false) /\
  (forall n v, Str.contains c n = false ->
     Str.contains c (n +:+ String c v) = true /\
     Str.split_first c (n +:+ String c v) = (n, v)).
Proof.
  split.
  - intros s Hs. destruct (split_first_spec c s Hs) as (n & v & Heq & Hjoin & Hn).
    rewrite Heq. simpl. by split.
  - intros n v Hn. split; [|by apply split_first_join].
    induction n as [|a n IH]; simpl.
    + by rewrite Ascii.eqb_refl.
    + simpl in Hn. destruct (Ascii.eqb a c); [done|]. by apply IH.
Qed.

Lemma filter_existsb {A} (f : A -> bool) (l : list A) :
  (existsb f l = false /\ List.filter f l = []) \/
  (exists x rest, existsb f l = true /\ List.filter f l = x :: rest).
Proof.
  induction l as [|a l IH]; simpl; [by left|].
  destruct (f a) eqn:Ha; simpl.
  - right. by eexists _, _.
  - exact IH.
Qed.

(** X8: when the options parse, the properties sent with the export are
    the filter name and [Overwrite=True], then one [FilterData] entry
    holding all named options when there is at least one option with ['=']
    and none otherwise, then one [FilterOptions] entry per bare option, all
    in input order. *)
Theorem output_properties_of_options (name : string)
    (filter_options : list string) (data options : list property_value) :
  parse_filter_options filter_options = Ok (data, options) ->
  output_properties name data options
  = [PropertyValue "FilterName" (VStr name); PropertyValue "Overwrite" (VBool true)]
    ++ (if existsb (Str.contains "=") filter_options
        then [PropertyValue "FilterData"
                (VAny "[]com.sun.star.beans.PropertyValue" data)]
        else [])
    ++ options /\
  Forall2 (fun o entry => named_entry o = Ok entry)
    (named_options filter_options) data /\
  Forall2 (fun o entry => bare_entry o = Ok entry)
    (bare_options filter_options) options.
Proof.
  unfold parse_filter_options. rewrite parse_filter_loop_ok. simpl.
  intros (d' & o' & <- & <- & Hd & Ho). split; [|done].
  unfold output_properties, named_options in *.
  destruct (filter_existsb (Str.contains "=") filter_options)
    as [[He Hf]|(x & rest & He & Hf)]; rewrite He; rewrite Hf in Hd.
  - by apply Forall2_nil_inv_l in Hd as ->.
  - by apply Forall2_cons_inv_l in Hd as (e & d'' & _ & _ & ->).
Qed.

Lemma output_properties_of_options_witness :
  output_properties "writer_pdf_Export"
    [PropertyValue "Quality" (VInt 90)] [PropertyValue "FilterOptions" (VStr "1-3")]
  = [PropertyValue "FilterName" (VStr "writer_pdf_Export");
     PropertyValue "Overwrite" (VBool true);
     PropertyValue "FilterData"
       (VAny "[]com.sun.star.beans.PropertyValue"
          [PropertyValue "Quality" (VInt 90)]);
     PropertyValue "FilterOptions" (VStr "1-3")].
Proof.
  assert (parse_filter_options ["Quality=90"; "1-3"]
          = Ok ([PropertyValue "Quality" (VInt 90)],
                [PropertyValue "FilterOptions" (VStr "1-3")])) as Hparse
    by reflexivity.
  by destruct (output_properties_of_options "writer_pdf_Export"
                 ["Quality=90"; "1-3"] _ _ Hparse) as [-> _].
Defined.

(** ** The scoped temporary file *)



(** A body that deletes its temporary file turns its own result into a
    FileNotFoundError. *)
Example TempFileIfNeeded_file_gone :
  (TempFileIfNeeded Sample.engine None ".pdf" None
     (fun name w => (Ok tt, set_fs (delete name (fs w)) w))
     (init Sample.files)).1
  = Raise file_not_found.
Proof. by vm_compute. Qed.

(** With a path, [TempFileIfNeeded] is its body run on that path: it
    creates nothing, writes nothing (the data is ignored) and deletes
    nothing, also when the body raises. *)
Theorem TempFileIfNeeded_path {A} (E : Env) (path : string) (suffix : string)
    (data : option bytes) (body : string -> M A) (w : World) :
  path <> "" ->
  TempFileIfNeeded E (Some path) suffix data body w = body path w.
Proof.
  intros Hp. unfold TempFileIfNeeded, nonempty.
  apply String.eqb_neq in Hp. by rewrite Hp.
Qed.

Lemma TempFileIfNeeded_path_witness :
  TempFileIfNeeded Sample.engine (Some "/srv/in.odt") "" (Some Sample.pdf_bytes)
    read_file (init Sample.files)
  = (Ok ["P"; "K"]%byte, init Sample.files).
Proof.
  rewrite (TempFileIfNeeded_path Sample.engine "/srv/in.odt" ""
             (Some Sample.pdf_bytes) read_file (init Sample.files)).
  - vm_compute. reflexivity.
  - discriminate.
Defined.

(** ** The index refresh *)

Lemma update_indexes_step E passes document w :
  update_indexes E (S passes) document w =
  match doc_refresh E (log w) document with
  | Raise (Exn AttributeError _) => (Ok tt, log_event (ERefresh document) w)
  | Raise e => (Raise e, log_event (ERefresh document) w)
  | Ok _ =>
      let w1 := log_event (EGetDocumentIndexes document)
                  (log_event (ERefresh document) w) in
      match doc_getDocumentIndexes E (log w ++ [ERefresh document]) document with
      | Raise (Exn AttributeError _) => (Ok tt, w1)
      | Raise e => (Raise e, w1)
      | Ok _ =>
          bind (remote (EGetCount document)
                  (fun h => indexes_getCount E h document))
            (fun count =>
               bind (for_each (seq 0 count)
                       (fun i => remote (EIndexUpdate document i)
                                   (fun h => index_update E h document i)))
                 (fun _ => update_indexes E passes document)) w1
      end
  end.
Proof.
  cbn [update_indexes]. unfold bind at 1. unfold attempt, bind at 1.
  unfold remote at 1. cbn [log log_event].
  destruct (doc_refresh E (log w) document) as [[]|[cls msg]].
  - unfold remote at 1. cbn [log log_event].
    destruct (doc_getDocumentIndexes E (log w ++ [ERefresh document]) document)
      as [[]|[cls msg]]; [done|]. by destruct cls.
  - by destruct cls.
Qed.

(** X10: an AttributeError of [refresh] or of [getDocumentIndexes] ends the
    index refresh at once and without an error, in whichever pass it comes,
    with no index updated in that pass; any other exception of these two
    calls leaves the refresh as it is. *)
Theorem update_indexes_attribute_error (E : Env) (passes : nat)
    (document : Document) (w : World) :
  (forall msg,
      doc_refresh E (log w) document = Raise (Exn AttributeError msg) ->
      update_indexes E (S passes) document w
      = (Ok tt, log_event (ERefresh document) w)) /\
  (forall u msg,
      doc_refresh E (log w) document = Ok u ->
      doc_getDocumentIndexes E (log w ++ [ERefresh document]) document
      = Raise (Exn AttributeError msg) ->
      update_indexes E (S passes) document w
      = (Ok tt, log_event (EGetDocumentIndexes document)
                  (log_event (ERefresh document) w))) /\
  (forall e,
      doc_refresh E (log w) document = Raise e ->
      exn_cls e <> AttributeError ->
      update_indexes E (S passes) document w
      = (Raise e, log_event (ERefresh document) w)) /\
  (forall u e,
      doc_refresh E (log w) document = Ok u ->
      doc_getDocumentIndexes E (log w ++ [ERefresh document]) document = Raise e ->
      exn_cls e <> AttributeError ->
      update_indexes E (S passes) document w
      = (Raise e, log_event (EGetDocumentIndexes document)
                    (log_event (ERefresh document) w))).
Proof.
  rewrite update_indexes_step. repeat apply conj.
  - intros msg ->. done.
  - intros u msg -> ->. done.
  - intros [cls msg] -> Hcls. by destruct cls.
  - intros u [cls msg] -> -> Hcls. by destruct cls.
Qed.

Lemma update_indexes_attribute_error_witness :
  update_indexes (Sample.office (Raise (Exn AttributeError [])) Sample.text_services)
    2 7 (init Sample.files)
  = (Ok tt, log_event (ERefresh 7) (init Sample.files)).
Proof.
  apply (update_indexes_attribute_error
           (Sample.office (Raise (Exn AttributeError [])) Sample.text_services)
           1 7 (init Sample.files)) with (msg := []).
  reflexivity.
Defined.

Lemma for_each_cons {A} (x : A) (l : list A) (body : A -> M unit) w :
  for_each (x :: l) body w =
  match body x w with
  | (Ok _, w1) => for_each l body w1
  | (Raise e, w1) => (Raise e, w1)
  end.
Proof. reflexivity. Qed.

Lemma for_each_update_log E document (l : list nat) w :
  exists evs,
    log (for_each l (fun i => remote (EIndexUpdate document i)
                                (fun h => index_update E h document i)) w).2
    = log w ++ evs /\
    Forall (fun ev => is_index_event ev = true /\ is_refresh ev = false) evs /\
    fs (for_each l (fun i => remote (EIndexUpdate document i)
                               (fun h => index_update E h document i)) w).2 = fs w.
Proof.
  revert w. induction l as [|i l IH]; intros w.
  - exists []. simpl. by rewrite app_nil_r.
  - rewrite !for_each_cons. unfold remote at 1 3. cbn [fst snd].
    destruct (index_update E (log w) document i) as [[]|e].
    + destruct (IH (log_event (EIndexUpdate document i) w)) as (evs & Hlog & Hevs & Hfs).
      exists (EIndexUpdate document i :: evs). rewrite Hlog, Hfs. simpl.
      split; [by rewrite <- app_assoc|]. split; [by constructor | done].
    + exists [EIndexUpdate document i]. simpl. split; [done|].
      split; [by repeat constructor | done].
Qed.

Lemma filter_refresh_nil (evs : list Event) :
  Forall (fun ev => is_index_event ev = true /\ is_refresh ev = false) evs ->
  List.filter is_refresh evs = [].
Proof.
  induction 1 as [|ev evs [_ Hev] _ IH]; [done|]. simpl. by rewrite Hev.
Qed.

Lemma update_indexes_run E document passes w r w' :
  update_indexes E passes document w = (r, w') ->
  exists evs,
    log w' = log w ++ evs /\
    Forall (fun ev => is_index_event ev = true) evs /\
    length (List.filter is_refresh evs) <= passes /\
    fs w' = fs w.
Proof.
  revert w r w'. induction passes as [|passes IH]; intros w r w' Hrun.
  { injection Hrun as <- <-. exists []. rewrite app_nil_r.
    repeat split; [constructor | simpl; lia]. }
  rewrite update_indexes_step in Hrun.
  destruct (doc_refresh E (log w) document) as [[]|[cls msg]].
  2: { exists [ERefresh document].
       assert (w' = log_event (ERefresh document) w) as ->
         by (destruct cls; by injection Hrun).
       simpl. split; [done|]. split; [by repeat constructor|].
       split; [lia | done]. }
  cbv zeta in Hrun.
  destruct (doc_getDocumentIndexes E (log w ++ [ERefresh document]) document)
    as [[]|[cls msg]].
  2: { exists [ERefresh document; EGetDocumentIndexes document].
       assert (w' = log_event (EGetDocumentIndexes document)
                      (log_event (ERefresh document) w)) as ->
         by (destruct cls; by injection Hrun).
       simpl. split; [by rewrite <- app_assoc|]. split; [by repeat constructor|].
       split; [lia | done]. }
  unfold bind at 1 in Hrun. unfold remote at 1 in Hrun. cbn [log log_event] in Hrun.
  set (w2 := log_event (EGetCount document) _) in Hrun.
  assert (log w2 = log w ++ [ERefresh document; EGetDocumentIndexes document;
                             EGetCount document] /\ fs w2 = fs w) as [Hlog2 Hfs2].
  { unfold w2. simpl. by rewrite <- !app_assoc. }
  clearbody w2.
  destruct (indexes_getCount E _ document) as [count|e].
  2: { injection Hrun as <- <-.
       exists [ERefresh document; EGetDocumentIndexes document; EGetCount document].
       split; [done|]. split; [by repeat constructor|]. split; [simpl; lia | done]. }
  unfold bind in Hrun.
  destruct (for_each_update_log E document (seq 0 count) w2)
    as (evs1 & Hlog1 & Hevs1 & Hfs1).
  destruct (for_each (seq 0 count) _ w2) as [[[]|e] w3]; cbn [fst snd] in *.
  - destruct (IH _ _ _ Hrun) as (evs2 & Hlog & Hevs2 & Hcount & Hfs).
    exists ([ERefresh document; EGetDocumentIndexes document;
             EGetCount document] ++ evs1 ++ evs2).
    split; [by rewrite Hlog, Hlog1, Hlog2, <- !app_assoc|].
    split.
    { repeat constructor. apply Forall_app. split; [|done].
      eapply Forall_impl; [exact Hevs1|]. by intros ev [? ?]. }
    split; [|by rewrite Hfs, Hfs1].
    simpl. rewrite List.filter_app, length_app, (filter_refresh_nil evs1 Hevs1).
    simpl. lia.
  - injection Hrun as <- <-.
    exists ([ERefresh document; EGetDocumentIndexes document;
             EGetCount document] ++ evs1).
    split; [by rewrite Hlog1, Hlog2, <- !app_assoc|].
    split.
    { repeat constructor. eapply Forall_impl; [exact Hevs1|]. by intros ev [? ?]. }
    split; [|by rewrite Hfs1].
    simpl. rewrite (filter_refresh_nil evs1 Hevs1). simpl. lia.
Qed.

(** X11: the index refresh only makes calls of the index refresh, at most
    one [refresh] per pass, so never more than two in a conversion, and it
    leaves the local files alone. *)
Theorem update_indexes_log (E : Env) (passes : nat) (document : Document)
    (w : World) :
  exists evs,
    log (update_indexes E passes document w).2 = log w ++ evs /\
    Forall (fun ev => is_index_event ev = true) evs /\
    length (List.filter is_refresh evs) <= passes /\
    fs (update_indexes E passes document w).2 = fs w.
Proof.
  destruct (update_indexes E passes document w) as [r w'] eqn:Hrun.
  by apply (update_indexes_run E document passes w r w').
Qed.

(** ** The options of the load *)

(** X12: the options [convert] loads a document with always start with
    [ReadOnly=True]; nothing follows when no import filter is named (or the
    name is empty), and otherwise one [FilterName] follows whose value is
    the canonical name of an import filter of the catalog that has the
    given string as its name or as an accepted alias. *)
Theorem input_properties_returns (E : Env) (rq : Request) (w : World)
    (input_props : list property_value) (w1 : World) :
  input_properties E rq w = (Ok input_props, w1) ->
  (nonempty (infiltername rq) = None /\ w1 = w /\
   input_props = [PropertyValue "ReadOnly" (VBool true)]) \/
  (exists name filters flt,
      nonempty (infiltername rq) = Some name /\
      get_available_import_filters E w = (Ok filters, w1) /\
      flt ∈ filters /\
      (name = Name flt \/ (name ∈ UserData flt /\ alias_ok name = true)) /\
      input_props = [PropertyValue "ReadOnly" (VBool true);
                     PropertyValue "FilterName" (VStr (Name flt))]).
Proof.
  unfold input_properties.
  destruct (nonempty (infiltername rq)) as [name|].
  - unfold bind.
    destruct (get_available_import_filters_twice E w)
      as (filters & w' & Hget & _).
    rewrite Hget.
    destruct (get_filter_names filters !! name) as [canonical|] eqn:Hk.
    + intros [= <- <-]. right.
      destruct (get_filter_names_origin _ _ _ Hk) as (flt & Hin & -> & Hw).
      by exists name, filters, flt.
    + intros [=].
  - intros [= <- <-]. by left.
Qed.

Lemma input_properties_returns_witness :
  exists flt,
    flt ∈ [Sample.writer8; Sample.html_web] /\
    ("odt" = Name flt \/ ("odt" ∈ UserData flt /\ alias_ok "odt" = true)) /\
    [PropertyValue "ReadOnly" (VBool true);
     PropertyValue "FilterName" (VStr "writer8")]
    = [PropertyValue "ReadOnly" (VBool true);
       PropertyValue "FilterName" (VStr (Name flt))].
Proof.
  destruct (input_properties_returns Sample.engine
              (Sample.request (Some "/srv/in.odt") None (Some "pdf") None
                 (Some "odt"))
              (init Sample.files)
              [PropertyValue "ReadOnly" (VBool true);
               PropertyValue "FilterName" (VStr "writer8")]
              (get_available_import_filters Sample.engine (init Sample.files)).2)
    as [(Hnone & _)|(name & filters & flt & Hname & Hget & Hin & Hw & Hprops)].
  - vm_compute. reflexivity.
  - discriminate Hnone.
  - injection Hname as <-. injection Hget as <-. by exists flt.
Defined.

Example input_properties_alias :
  (input_properties Sample.engine
     (Sample.request (Some "/srv/in.odt") None (Some "pdf") None (Some "odt"))
     (init Sample.files)).1
  = Ok [PropertyValue "ReadOnly" (VBool true);
        PropertyValue "FilterName" (VStr "writer8")].
Proof. vm_compute. reflexivity. Qed.

(** ** The export filter *)

Lemma get_filter_names_name_key (filters : list FilterDescriptor) flt :
  flt ∈ filters -> is_Some (get_filter_names filters !! Name flt).
Proof.
  intros Hin. induction filters as [|g filters IH] using rev_ind.
  - by apply elem_of_nil in Hin.
  - rewrite get_filter_names_snoc.
    destruct (writes_key_dec g (Name flt)) as [Hg|Hg].
    + rewrite add_filter_names_writes by done. by eexists.
    + rewrite add_filter_names_other by done. apply IH.
      apply elem_of_app in Hin as [Hin|Hin]; [done|].
      apply list_elem_of_singleton in Hin. subst g. exfalso. apply Hg. by left.
Qed.

Lemma find_filter_in_found filters import_type export_type name :
  find_filter_in filters import_type export_type = Some name ->
  exists flt, flt ∈ filters /\ name = Name flt /\
    DocumentService flt = import_type /\ Type_ flt = export_type.
Proof.
  destruct (find_filter_in_spec filters import_type export_type)
    as [(before & flt & after & -> & _ & [Hd Ht] & Hr)|[_ Hr]];
    rewrite Hr; [|done].
  intros [= <-]. exists flt. split; [|done].
  apply elem_of_app. right. apply list_elem_of_here.
Qed.

(** X13: the export filter name that [convert] goes on with is always a
    key of the export alias table.  A name given by the caller is passed on
    as it was given, not replaced by the canonical name the table maps it
    to; without a given name it is the canonical name of a catalog filter
    that serves the document type and the export type.  When nothing is
    given and no filter serves the two types the selection raises the
    RuntimeError that names both. *)
Theorem select_export_filter_outcome (E : Env) (rq : Request)
    (import_type export_type : string) (w : World) :
  exists filters w1,
    get_available_export_filters E w = (Ok filters, w1) /\
    (select_export_filter E rq import_type export_type w).2 = w1 /\
    match (select_export_filter E rq import_type export_type w).1 with
    | Ok name =>
        is_Some (get_filter_names filters !! name) /\
        match filtername rq with
        | Some given => name = given
        | None => exists flt, flt ∈ filters /\ name = Name flt /\
                    DocumentService flt = import_type /\
                    Type_ flt = export_type
        end
    | Raise e =>
        match filtername rq with
        | Some given =>
            get_filter_names filters !! given = None /\
            e = no_export_filter given (get_filter_names filters)
        | None =>
            Forall (fun g => ~ (DocumentService g = import_type /\
                                Type_ g = export_type)) filters /\
            e = Exn RuntimeError
                  [Lit "Could not find an export filter from ";
                   Interp import_type; Lit " to "; Interp export_type]
        end
    end.
Proof.
  destruct (get_available_export_filters_twice E w) as (filters & w1 & Hget & _).
  exists filters, w1. split; [done|].
  unfold select_export_filter. destruct (filtername rq) as [given|].
  - unfold bind. rewrite Hget.
    destruct (get_filter_names filters !! given) as [canonical|] eqn:Hk; simpl.
    + split; [done|]. split; [|done]. rewrite Hk. by eexists.
    + by split.
  - unfold find_filter, bind, ret. rewrite Hget.
    destruct (find_filter_in filters import_type export_type) as [name|] eqn:Hf;
      simpl.
    + split; [done|].
      destruct (find_filter_in_found _ _ _ _ Hf) as (flt & Hin & -> & Hd & Ht).
      split; [by apply get_filter_names_name_key|]. by exists flt.
    + split; [done|]. split; [|done].
      destruct (find_filter_in_spec filters import_type export_type)
        as [(before & flt & after & _ & _ & _ & Hr)|[Hall _]]; [congruence|].
      eapply Forall_impl; [exact Hall|]. intros g Hg. exact Hg.
Qed.

Example select_export_filter_alias :
  (select_export_filter Sample.engine
     (Sample.request (Some "/srv/in.odt") None (Some "pdf") (Some "pdf") None)
     "com.sun.star.text.TextDocument" "pdf_Portable_Document_Format"
     (init Sample.files)).1 = Ok "pdf".
Proof. vm_compute. reflexivity. Qed.

(** X14: [find_filter] fills the export cache, and from then on every
    lookup is answered from that list without a call to the engine: the
    same two types give the same answer again and leave the world as it
    is. *)
Theorem find_filter_memoized (E : Env) (import_type export_type : string)
    (w : World) :
  exists filters,
    _export_filters (find_filter E import_type export_type w).2 = Some filters /\
    find_filter E import_type export_type
      (find_filter E import_type export_type w).2
    = find_filter E import_type export_type w /\
    (forall t1 t2,
        find_filter E t1 t2 (find_filter E import_type export_type w).2
        = (Ok (find_filter_in filters t1 t2),
           (find_filter E import_type export_type w).2)).
Proof.
  unfold find_filter, bind, ret, get_available_export_filters.
  destruct (_export_filters w) as [cached|] eqn:Hc; simpl.
  - exists cached. rewrite Hc. by repeat split.
  - eexists. by repeat split.
Qed.

(** ** One conversion, seen from the engine *)

Lemma TempFileIfNeeded_run {A} E path suffix data (body : string -> M A) w :
  exists p inside,
    log inside = log w /\
    ((TempFileIfNeeded E path suffix data body w).1 = (body p inside).1 \/
     (TempFileIfNeeded E path suffix data body w).1 = Raise file_not_found) /\
    log (TempFileIfNeeded E path suffix data body w).2 = log (body p inside).2.
Proof.
  rewrite (TempFileIfNeeded_scope E path suffix data body w).
  exists (yielded_path E path suffix w), (yielded_world E path suffix data w).
  unfold leave, yielded_world.
  destruct (nonempty path) as [p|].
  { split; [done|]. split; [by left | done]. }
  split; [done|].
  destruct (fs _ !! _); cbn [fst snd log set_fs].
  - split; [by left | done].
  - split; [by right | done].
Qed.

Lemma filter_close_queries (evs : list Event) :
  Forall (fun ev => is_catalog_query ev = true) evs ->
  List.filter is_close evs = [].
Proof.
  induction 1 as [|ev evs Hev _ IH]; [done|]. simpl.
  by destruct ev.
Qed.

Lemma convert_input_closes E rq input_props p w :
  exists closes,
    List.filter is_close (log (convert_input E rq input_props p w).2)
    = List.filter is_close (log w) ++ closes /\
    ((closes = [] /\ exists e, (convert_input E rq input_props p w).1 = Raise e) \/
     (exists document,
         closes = [EClose document] /\
         loadComponentFromURL E (log w) (systemPathToFileUrl E (abspath E p))
           input_props = Ok (Some document))).
Proof.
  destruct (fs w !! p) as [content|] eqn:Hp.
  2: { rewrite convert_input_missing by done. exists []. simpl.
       rewrite app_nil_r. split; [done|]. left. split; [done|]. by eexists. }
  destruct (loadComponentFromURL E (log w) (systemPathToFileUrl E (abspath E p))
              input_props) as [[document|]|e] eqn:Hload.
  - destruct (convert_input_close_count E rq input_props p w document
                ltac:(by eexists) Hload) as [Hcount Hraise].
    cbv zeta in Hcount, Hraise.
    destruct ((if update_index rq then update_indexes E 2 document else ret tt)
                (log_event (ELoad (systemPathToFileUrl E (abspath E p)) input_props) w))
      as [[[]|e] w2]; cbn [fst] in *.
    + exists [EClose document]. split; [done|]. right. by exists document.
    + exists []. split; [done|]. left. split; [done|]. exists e. by apply Hraise.
  - exists []. unfold convert_input, bind, path_exists. rewrite Hp.
    rewrite bool_decide_eq_true_2 by (by eexists). simpl.
    unfold remote. rewrite Hload. simpl.
    rewrite List.filter_app, app_nil_r. simpl. rewrite app_nil_r.
    split; [done|]. left. split; [done|]. by eexists.
  - exists []. unfold convert_input, bind, path_exists. rewrite Hp.
    rewrite bool_decide_eq_true_2 by (by eexists). simpl.
    unfold remote. rewrite Hload. simpl.
    rewrite List.filter_app, app_nil_r. simpl. rewrite app_nil_r.
    split; [done|]. left. split; [done|]. by eexists.
Qed.

(** X15: one call of [convert] closes at most one document; when it closes
    none it ends in an exception, so a call that returns has closed exactly
    one document. *)
Theorem convert_closes_at_most_once (E : Env) (rq : Request) (w : World) :
  exists closes,
    List.filter is_close (log (convert E rq w).2)
    = List.filter is_close (log w) ++ closes /\
    ((closes = [] /\ exists e, (convert E rq w).1 = Raise e) \/
     (exists document, closes = [EClose document])).
Proof.
  unfold convert, bind.
  destruct (input_properties_log E rq w) as [_ (evs & Hlog & Hevs)].
  destruct (input_properties E rq w) as [[input_props|e] w1]; simpl in Hlog.
  - destruct (TempFileIfNeeded_run E (inpath rq) "" (indata rq)
                (convert_input E rq input_props) w1)
      as (p & inside & Hinside & Hresult & Hlog').
    destruct (convert_input_closes E rq input_props p inside)
      as (closes & Hcloses & Hcases).
    exists closes. rewrite Hlog', Hcloses, Hinside, Hlog, List.filter_app.
    rewrite (filter_close_queries evs Hevs), app_nil_r. split; [done|].
    destruct Hcases as [[-> [e He]]|(document & -> & _)].
    + left. split; [done|].
      destruct Hresult as [Hresult|Hresult]; rewrite Hresult; by eexists.
    + right. by exists document.
  - exists []. simpl. rewrite Hlog, List.filter_app.
    rewrite (filter_close_queries evs Hevs), !app_nil_r.
    split; [done|]. left. split; [done|]. by exists e.
Qed.

(** X16: when the engine loads no document (it returns none, or the load
    raises), the conversion ends right there: the load is the last call to
    the engine, nothing is closed, and the error of a missing document
    names the caller's input path, or ["<remote file>"] for input given as
    bytes, and the import filter name, or ["default"]. *)
Theorem convert_input_load_failed (E : Env) (rq : Request)
    (input_props : list property_value) (p : string) (w : World) :
  is_Some (fs w !! p) ->
  (loadComponentFromURL E (log w) (systemPathToFileUrl E (abspath E p)) input_props
   = Ok None ->
   convert_input E rq input_props p w =
   (Raise (Exn RuntimeError
             [Lit "Could not load document ";
              Interp (match nonempty (inpath rq) with
                      | Some given => given
                      | None => "<remote file>"
                      end);
              Lit " using the ";
              Interp (match nonempty (infiltername rq) with
                      | Some given => given
                      | None => "default"
                      end);
              Lit " filter."]),
    log_event (ELoad (systemPathToFileUrl E (abspath E p)) input_props) w)) /\
  (forall e,
      loadComponentFromURL E (log w) (systemPathToFileUrl E (abspath E p))
        input_props = Raise e ->
      convert_input E rq input_props p w =
      (Raise e,
       log_event (ELoad (systemPathToFileUrl E (abspath E p)) input_props) w)).
Proof.
  intros Hp. split.
  - intros Hload. unfold convert_input, bind, path_exists.
    rewrite bool_decide_eq_true_2 by done. cbn [negb].
    unfold remote. rewrite Hload. unfold raise, could_not_load.
    by destruct (nonempty (inpath rq)), (nonempty (infiltername rq)).
  - intros e Hload. unfold convert_input, bind, path_exists.
    rewrite bool_decide_eq_true_2 by done. cbn [negb].
    unfold remote. by rewrite Hload.
Qed.

Lemma convert_input_load_failed_witness :
  convert_input (Scenario.office (Ok None) "pdf_Portable_Document_Format" (Ok tt))
    Sample.to_pdf [PropertyValue "ReadOnly" (VBool true)] "/srv/in.odt"
    (init Sample.files)
  = (Raise (Exn RuntimeError
              [Lit "Could not load document "; Interp "/srv/in.odt";
               Lit " using the "; Interp "default"; Lit " filter."]),
     log_event (ELoad "file:///srv/in.odt" [PropertyValue "ReadOnly" (VBool true)])
       (init Sample.files)).
Proof.
  apply (proj1 (convert_input_load_failed
                  (Scenario.office (Ok None) "pdf_Portable_Document_Format" (Ok tt))
                  Sample.to_pdf [PropertyValue "ReadOnly" (VBool true)]
                  "/srv/in.odt" (init Sample.files)
                  (ex_intro _ ["P"; "K"]%byte eq_refl))).
  reflexivity.
Defined.

Example convert_bytes_not_loaded :
  (convert (Scenario.office (Ok None) "pdf_Portable_Document_Format" (Ok tt))
     Scenario.from_bytes (init Sample.files)).1
  = Raise (Exn RuntimeError
             [Lit "Could not load document "; Interp "<remote file>";
              Lit " using the "; Interp "default"; Lit " filter."]).
Proof. vm_compute. reflexivity. Qed.

Lemma get_doc_type_known E document w names :
  doc_getSupportedServiceNames E (log w) document = Ok names ->
  DOC_TYPES ∩ list_to_set names ≠ (∅ : gset string) ->
  get_doc_type E document w
  = (Ok (set_pop E (DOC_TYPES ∩ list_to_set names)),
     log_event (EGetSupportedServiceNames document) w).
Proof.
  intros Hnames Hne. unfold get_doc_type, bind, remote. rewrite Hnames.
  by rewrite decide_False.
Qed.

(** X17: when the type detection knows no type for an explicit output
    path, the export ends in the unknown-export-type error before any
    filter is looked up and before anything is stored; the error names the
    extension argument, and the extension of the output path only when the
    extension argument is the empty string. *)
Theorem export_document_unknown_type (E : Env) (rq : Request)
    (document : Document) (w : World) (names : list string)
    (extension p : string) :
  doc_getSupportedServiceNames E (log w) document = Ok names ->
  DOC_TYPES ∩ list_to_set names ≠ (∅ : gset string) ->
  convert_to rq = Some extension ->
  nonempty (outpath rq) = Some p ->
  queryTypeByURL E (log w ++ [EGetSupportedServiceNames document])
    (systemPathToFileUrl E (abspath E p)) = Ok "" ->
  export_document E rq document w =
  (Raise (Exn RuntimeError
            [Lit "Unknown export file type, unknown extension '";
             Interp (if String.eqb extension "" then splitext_ext E p
                     else extension);
             Lit "'"]),
   log_event (EQueryTypeByURL (systemPathToFileUrl E (abspath E p)))
     (log_event (EGetSupportedServiceNames document) w)).
Proof.
  intros Hnames Hne Hext Hout Htype. unfold export_document.
  unfold bind at 1. rewrite (get_doc_type_known E document w names Hnames Hne).
  rewrite Hext. unfold bind at 1. unfold ret at 1.
  rewrite (TempFileIfNeeded_given _ _ _ _ _ p Hout).
  unfold bind at 1. unfold remote at 1. cbn [log log_event]. rewrite Htype.
  cbn [String.eqb]. unfold raise, unknown_export_type, nonempty.
  by destruct (String.eqb extension "").
Qed.

Lemma export_document_unknown_type_witness :
  export_document (Scenario.office (Ok (Some 7)) "" (Ok tt)) Scenario.to_unknown 7
    (init Sample.files)
  = (Raise (Exn RuntimeError
              [Lit "Unknown export file type, unknown extension '";
               Interp ".xyz"; Lit "'"]),
     log_event (EQueryTypeByURL "file:///srv/out.xyz")
       (log_event (EGetSupportedServiceNames 7) (init Sample.files))).
Proof.
  apply (export_document_unknown_type (Scenario.office (Ok (Some 7)) "" (Ok tt))
           Scenario.to_unknown 7 (init Sample.files) Sample.text_services
           "" "/srv/out.xyz").
  - reflexivity.
  - intros Hempty.
    assert ("com.sun.star.text.TextDocument"
            ∈ DOC_TYPES ∩ list_to_set Sample.text_services) as Hin.
    { unfold DOC_TYPES, Sample.text_services. set_solver. }
    rewrite Hempty in Hin. by apply not_elem_of_empty in Hin.
  - reflexivity.
  - reflexivity.
  - reflexivity.
Defined.

(** ** Temporary files of a conversion *)

(** X18: input given as bytes is written to a temporary file that is gone
    again when [convert] ends, whether it returned or raised; and the
    temporary output file of a call without output path is gone when the
    [try] is left, unless the classifier raised before it was made. *)
Theorem convert_removes_temporary_files (E : Env) (rq : Request) (w : World) :
  (nonempty (inpath rq) = None ->
   forall input_props w1,
     input_properties E rq w = (Ok input_props, w1) ->
     fs (convert E rq w).2 !! temp_name E (fs w) "" = None) /\
  (nonempty (outpath rq) = None ->
   forall document extension,
     convert_to rq = Some extension ->
     fs (export_document E rq document w).2
       !! temp_name E (fs w) ("." +:+ extension) = None \/
     (exists e, export_document E rq document w
                = (Raise e, log_event (EGetSupportedServiceNames document) w))).
Proof.
  split.
  - intros Hin input_props w1 Hprops. unfold convert, bind. rewrite Hprops.
    destruct (input_properties_log E rq w) as [Hfs _]. rewrite Hprops in Hfs.
    simpl in Hfs. rewrite TempFileIfNeeded_scope.
    unfold yielded_path. rewrite Hin. cbn [default]. rewrite Hfs.
    by apply leave_gone.
  - intros Hout document extension Hext.
    destruct (export_document E rq document w) as [r w'] eqn:Hrun.
    unfold export_document in Hrun. unfold bind at 1 in Hrun.
    assert ((get_doc_type E document w).2
            = log_event (EGetSupportedServiceNames document) w) as Hworld.
    { unfold get_doc_type, bind, remote.
      destruct (doc_getSupportedServiceNames E (log w) document); [|done].
      cbv zeta. by destruct (decide _). }
    destruct (get_doc_type E document w) as [[import_type|e] w1];
      cbn [snd] in Hworld; subst w1.
    2: { right. exists e. by injection Hrun as <- <-. }
    left. rewrite Hext in Hrun. unfold bind at 1, ret at 1 in Hrun.
    rewrite TempFileIfNeeded_scope in Hrun.
    unfold yielded_path in Hrun. rewrite Hout in Hrun.
    cbn [default fs log_event] in Hrun.
    apply (f_equal snd) in Hrun. cbn [snd] in Hrun. subst w'.
    by apply leave_gone.
Qed.

Lemma convert_removes_temporary_files_witness :
  fs (convert Sample.engine Scenario.from_bytes (init Sample.files)).2
    !! "/tmp/tmpa1b2c3" = None.
Proof.
  apply (proj1 (convert_removes_temporary_files Sample.engine Scenario.from_bytes
                  (init Sample.files)) eq_refl
           [PropertyValue "ReadOnly" (VBool true)] (init Sample.files)).
  reflexivity.
Defined.

(** ** A close that fails *)

Lemma leave_log {A} path name (after : outcome A * World) :
  log (leave path name after).2 = log after.2.
Proof.
  unfold leave. destruct (nonempty path); [done|].
  by destruct (fs after.2 !! name).
Qed.

(** X19: once [convert] is in its [try], the close of the [finally] is the
    last call to the engine, and its outcome decides how the call ends: when
    the close raises, [convert] raises that exception, even after an export
    that succeeded, whose result is lost; when the close succeeds, [convert]
    ends as the export did.  Only an input given as bytes whose temporary
    file is gone by then changes that: leaving it raises
    FileNotFoundError. *)
Theorem close_failure_replaces_result (E : Env) (rq : Request) (w : World)
    (input_path : string) (document : Document) (w3 : World) :
  opens E rq w input_path document w3 ->
  let exported := export_document E rq document w3 in
  log (convert E rq w).2 = log exported.2 ++ [EClose document] /\
  (forall e,
      doc_close E (log exported.2) document = Raise e ->
      (nonempty (inpath rq) = None -> is_Some (fs exported.2 !! input_path)) ->
      (convert E rq w).1 = Raise e) /\
  (forall u,
      doc_close E (log exported.2) document = Ok u ->
      (nonempty (inpath rq) = None -> is_Some (fs exported.2 !! input_path)) ->
      (convert E rq w).1 = exported.1) /\
  (nonempty (inpath rq) = None ->
   fs exported.2 !! input_path = None ->
   (convert E rq w).1 = Raise file_not_found).
Proof.
  intros Hopens exported.
  rewrite (convert_opens E rq w input_path document w3 Hopens).
  fold exported.
  destruct (closing_spec E document exported) as (Hclose1 & Hclose2 & Hclose3).
  split; [by rewrite leave_log|]. split; [|split].
  - intros e He Hkept.
    destruct (leave_kept (inpath rq) input_path (closing E document exported))
      as (-> & _); [by rewrite Hclose3|].
    by rewrite Hclose1, He.
  - intros u Hu Hkept.
    destruct (leave_kept (inpath rq) input_path (closing E document exported))
      as (-> & _); [by rewrite Hclose3|].
    by rewrite Hclose1, Hu.
  - intros Hin Hgone. unfold leave. by rewrite Hin, Hclose3, Hgone.
Qed.

Lemma close_failure_replaces_result_witness :
  (convert (Scenario.office (Ok (Some 7)) "pdf_Portable_Document_Format"
              (Raise (Exn UnoException [])))
     Sample.to_pdf (init Sample.files)).1
  = Raise (Exn UnoException []).
Proof.
  set (E := Scenario.office (Ok (Some 7)) "pdf_Portable_Document_Format"
              (Raise (Exn UnoException []))).
  set (w2 := log_event (ELoad "file:///srv/in.odt"
                          [PropertyValue "ReadOnly" (VBool true)])
               (init Sample.files)).
  assert (opens E Sample.to_pdf (init Sample.files) "/srv/in.odt" 7
            (update_indexes E 2 7 w2).2) as Hopens.
  { exists [PropertyValue "ReadOnly" (VBool true)], (init Sample.files).
    split; [reflexivity|]. split; [reflexivity|]. cbv zeta.
    split; [by eexists|]. split; [reflexivity|]. vm_compute. reflexivity. }
  destruct (close_failure_replaces_result E Sample.to_pdf (init Sample.files)
              "/srv/in.odt" 7 _ Hopens) as (_ & Hraise & _).
  apply Hraise; [reflexivity | discriminate].
Defined.

Example convert_close_fails :
  (convert (Scenario.office (Ok (Some 7)) "pdf_Portable_Document_Format"
              (Raise (Exn UnoException [])))
     Sample.to_pdf (init Sample.files)).1
  = Raise (Exn UnoException []).
Proof. vm_compute. reflexivity. Qed.

(** ** The order of the engine calls *)

Lemma calls_app (a b : list Event) : calls (a ++ b) = calls a ++ calls b.
Proof. apply List.filter_app. Qed.

Lemma staged_weaken {A} lo hi lo' hi' (m : M A) :
  staged lo hi m -> lo' <= lo -> hi <= hi' -> staged lo' hi' m.
Proof.
  intros Hm Hlo Hhi w. destruct (Hm w) as (evs & Hlog & Hsorted & Hrange).
  exists evs. split; [done|]. split; [done|].
  eapply Forall_impl; [exact Hrange|]. intros ev ?. simpl in *. lia.
Qed.

(** A computation whose only calls are catalog queries fits everywhere. *)
Lemma staged_queries {A} lo hi (m : M A) :
  (forall w, extends_log (fun ev => is_catalog_query ev = true) w (m w).2) ->
  staged lo hi m.
Proof.
  intros Hm w. destruct (Hm w) as (evs & Hlog & Hevs). exists evs.
  split; [done|].
  assert (calls evs = []) as ->.
  { clear Hlog. induction Hevs as [|ev evs Hev _ IH]; [done|].
    unfold calls in *. simpl. by rewrite Hev. }
  split; constructor.
Qed.

Lemma staged_silent {A} lo hi (m : M A) :
  (forall w, log (m w).2 = log w) -> staged lo hi m.
Proof.
  intros Hm. apply staged_queries. intros w. exists [].
  rewrite Hm, app_nil_r. split; [done | constructor].
Qed.

Lemma staged_remote {A} lo hi ev (answer : list Event -> outcome A) :
  is_catalog_query ev = false -> lo <= phase ev <= hi ->
  staged lo hi (remote ev answer).
Proof.
  intros Hq Hphase w. exists [ev]. split; [done|].
  unfold calls. simpl. rewrite Hq. simpl.
  split; repeat constructor; lia.
Qed.

Lemma staged_append (lo1 hi1 lo2 hi2 lo hi : nat) (evs1 evs2 : list Event) :
  StronglySorted follows (calls evs1) ->
  Forall (fun ev => lo1 <= phase ev <= hi1) (calls evs1) ->
  StronglySorted follows (calls evs2) ->
  Forall (fun ev => lo2 <= phase ev <= hi2) (calls evs2) ->
  hi1 < lo2 -> lo <= lo1 -> lo <= lo2 -> hi1 <= hi -> hi2 <= hi ->
  StronglySorted follows (calls (evs1 ++ evs2)) /\
  Forall (fun ev => lo <= phase ev <= hi) (calls (evs1 ++ evs2)).
Proof.
  intros Hs1 Hr1 Hs2 Hr2 Hlt H1 H2 H3 H4. rewrite calls_app. split.
  - apply StronglySorted_app_2; [|done..].
    intros a b Ha Hb. left.
    rewrite Forall_forall in Hr1, Hr2.
    specialize (Hr1 a Ha). specialize (Hr2 b Hb). simpl in *. lia.
  - apply Forall_app. split.
    + eapply Forall_impl; [exact Hr1|]. intros ev ?. simpl in *. lia.
    + eapply Forall_impl; [exact Hr2|]. intros ev ?. simpl in *. lia.
Qed.

Lemma staged_bind {A B} lo1 hi1 lo2 hi2 lo hi (m : M A) (f : A -> M B) :
  staged lo1 hi1 m -> (forall a, staged lo2 hi2 (f a)) ->
  hi1 < lo2 -> lo <= lo1 -> lo <= lo2 -> hi1 <= hi -> hi2 <= hi ->
  staged lo hi (bind m f).
Proof.
  intros Hm Hf Hlt H1 H2 H3 H4 w. unfold bind.
  destruct (Hm w) as (evs1 & Hlog1 & Hs1 & Hr1).
  destruct (m w) as [[a|e] w1]; simpl in Hlog1.
  - destruct (Hf a w1) as (evs2 & Hlog2 & Hs2 & Hr2).
    exists (evs1 ++ evs2). split; [by rewrite Hlog2, Hlog1, app_assoc|].
    by apply (staged_append lo1 hi1 lo2 hi2).
  - exists evs1. split; [done|]. split; [done|].
    eapply Forall_impl; [exact Hr1|]. intros ev ?. simpl in *. lia.
Qed.

Lemma staged_try_finally {A} lo1 hi1 lo2 hi2 lo hi (body : M A) cleanup :
  staged lo1 hi1 body -> staged lo2 hi2 cleanup ->
  hi1 < lo2 -> lo <= lo1 -> lo <= lo2 -> hi1 <= hi -> hi2 <= hi ->
  staged lo hi (try_finally body cleanup).
Proof.
  intros Hb Hc Hlt H1 H2 H3 H4 w. unfold try_finally.
  destruct (Hb w) as (evs1 & Hlog1 & Hs1 & Hr1).
  destruct (body w) as [r w1]; simpl in Hlog1.
  destruct (Hc w1) as (evs2 & Hlog2 & Hs2 & Hr2).
  exists (evs1 ++ evs2).
  split; [|by apply (staged_append lo1 hi1 lo2 hi2)].
  destruct (cleanup w1) as [[[]|e] w2]; simpl in *;
    by rewrite Hlog2, Hlog1, app_assoc.
Qed.

Lemma staged_TempFileIfNeeded {A} lo hi E path suffix data (body : string -> M A) :
  (forall p, staged lo hi (body p)) ->
  staged lo hi (TempFileIfNeeded E path suffix data body).
Proof.
  intros Hb w.
  destruct (TempFileIfNeeded_run E path suffix data body w)
    as (p & inside & Hinside & _ & Hlog).
  destruct (Hb p inside) as (evs & Hlog' & Hs & Hr).
  exists evs. by rewrite Hlog, Hlog', Hinside.
Qed.

Lemma staged_export_filters lo hi E :
  staged lo hi (get_available_export_filters E).
Proof.
  apply staged_queries. intros w.
  apply (extends_log_export (fun ev => is_catalog_query ev = true) w E);
    [done | apply extends_log_refl].
Qed.

Lemma staged_update_indexes E passes document :
  staged 2 2 (update_indexes E passes document).
Proof.
  intros w. destruct (update_indexes E passes document w) as [r w'] eqn:Hrun.
  destruct (update_indexes_run E document passes w r w' Hrun)
    as (evs & Hlog & Hevs & _).
  exists evs. split; [done|]. clear Hlog Hrun.
  induction Hevs as [|ev evs Hev Hevs [IH1 IH2]]; [split; constructor|].
  assert (is_catalog_query ev = false) as Hq by (by destruct ev).
  unfold calls in *. simpl. rewrite Hq. simpl. split.
  - constructor; [done|]. apply Forall_forall. intros b Hb. right.
    split; [done|]. apply list_elem_of_In, filter_In in Hb as [Hb _].
    rewrite Forall_forall in Hevs. by apply Hevs, list_elem_of_In.
  - constructor; [|done]. destruct ev; try discriminate Hev; simpl; lia.
Qed.

Lemma staged_select_export_filter lo hi E rq import_type export_type :
  staged lo hi (select_export_filter E rq import_type export_type).
Proof.
  apply staged_queries. intros w.
  apply (preserves_select_export_filter E
           (extends_log (fun ev => is_catalog_query ev = true) w)).
  - by apply extends_log_export.
  - apply extends_log_refl.
Qed.

Lemma staged_export_document E rq document :
  staged 3 5 (export_document E rq document).
Proof.
  unfold export_document.
  apply (staged_bind 3 3 4 5); try lia.
  { unfold get_doc_type. apply (staged_bind 3 3 4 3); try lia.
    - apply staged_remote; [done | simpl; lia].
    - intros names. apply staged_silent. intros w. cbv zeta.
      by destruct (decide _). }
  intros import_type. apply (staged_bind 4 3 4 5); try lia.
  { apply staged_silent. intros w. by destruct (convert_to rq). }
  intros suffix. apply staged_TempFileIfNeeded. intros output_path.
  apply (staged_bind 4 4 5 5); try lia.
  { apply staged_remote; [done | simpl; lia]. }
  intros export_type. destruct (String.eqb export_type "");
    [by apply staged_silent|].
  apply (staged_bind 5 4 5 5); try lia.
  { apply staged_select_export_filter. }
  intros name. apply (staged_bind 5 4 5 5); try lia.
  { by apply staged_silent. }
  intros [data options].
  apply (staged_bind 5 5 6 5); try lia.
  - intros w. exists [EStoreToURL document
                        (systemPathToFileUrl E (abspath E output_path))
                        (output_properties name data options)].
    unfold storeToURL. destruct (doc_storeToURL _ _ _ _ _ _) as [files r].
    simpl. split; [done|]. split; repeat constructor; simpl; lia.
  - intros _. apply staged_silent. intros w. destruct (outpath rq); [done|].
    unfold bind, read_file. by destruct (fs w !! output_path).
Qed.

Lemma staged_convert E rq : staged 1 6 (convert E rq).
Proof.
  unfold convert. apply (staged_bind 1 0 1 6); try lia.
  { apply staged_queries. intros w. apply input_properties_log. }
  intros input_props. apply staged_TempFileIfNeeded. intros input_path.
  unfold convert_input. apply (staged_bind 1 0 1 6); try lia.
  { by apply staged_silent. }
  intros found. destruct (negb found); [by apply staged_silent|].
  apply (staged_bind 1 1 2 6); try lia.
  { apply staged_remote; [done | simpl; lia]. }
  intros [document|]; [|by apply staged_silent].
  apply (staged_bind 2 2 3 6); try lia.
  { destruct (update_index rq);
      [apply staged_update_indexes | by apply staged_silent]. }
  intros _. apply (staged_try_finally 3 5 6 6); try lia.
  - apply staged_export_document.
  - apply staged_remote; [done | simpl; lia].
Qed.

Lemma sorted_at_most_one (f : Event -> bool) (l : list Event) :
  (forall a b, f a = true -> f b = true -> ~ follows a b) ->
  StronglySorted follows l ->
  length (List.filter f l) <= 1.
Proof.
  intros Hf Hl. induction Hl as [|a l Hl IH Ha]; [simpl; lia|].
  simpl. destruct (f a) eqn:Hfa; [|done]. simpl.
  replace (List.filter f l) with (@nil Event); [simpl; lia|].
  symmetry. clear IH Hl. induction Ha as [|b l Hab _ IH]; [done|].
  simpl. destruct (f b) eqn:Hfb; [|done].
  exfalso. by apply (Hf a b).
Qed.

(** X20: the calls one [convert] makes to the engine come in the order of
    the pipeline: the load, then the calls of the index refresh, then the
    service names, then the type detection, then the store, then the close
    (catalog queries, made when a cache is first read, apart); each of
    these but the index refresh calls is made at most once, so there is
    never more than one load and one store in a call. *)
Theorem convert_calls_in_order (E : Env) (rq : Request) (w : World) :
  exists evs,
    log (convert E rq w).2 = log w ++ evs /\
    StronglySorted follows (calls evs) /\
    Forall (fun ev => 1 <= phase ev <= 6) (calls evs) /\
    length (List.filter is_load (calls evs)) <= 1 /\
    length (List.filter is_store (calls evs)) <= 1.
Proof.
  destruct (staged_convert E rq w) as (evs & Hlog & Hsorted & Hrange).
  exists evs. split; [done|]. split; [done|]. split; [done|].
  split; apply sorted_at_most_one; try done.
  - intros [] [] Ha Hb [Hlt|[Hi _]]; try discriminate; simpl in Hlt; lia.
  - intros [] [] Ha Hb [Hlt|[Hi _]]; try discriminate; simpl in Hlt; lia.
Qed.

(** ** A successful export *)

Lemma select_export_filter_world E rq import_type export_type w :
  fs (select_export_filter E rq import_type export_type w).2 = fs w /\
  extends_log (fun ev => is_store ev = false) w
    (select_export_filter E rq import_type export_type w).2.
Proof.
  split.
  - apply (preserves_select_export_filter E (fun w' => fs w' = fs w));
      [|done].
    intros w' Hw'. by rewrite get_available_export_filters_fs.
  - apply (preserves_select_export_filter E
             (extends_log (fun ev => is_store ev = false) w)).
    + by apply extends_log_export.
    + apply extends_log_refl.
Qed.

(** X21: when the export returns, the engine was asked exactly what the
    request says.  The document was classified, the type detection knew a
    type for the URL of the output path (the given path when it is not
    empty, else the temporary file with the extension as suffix), the
    export filter was selected and the options parsed; then came the one
    store of the call, to that URL, with the properties built from the
    selected filter name and the parsed options, as the last call of the
    export, and it succeeded.  The result is the content the engine left at
    the temporary path when [outpath] is None, and nothing when [outpath]
    is given; with [outpath] the empty string the document went to a
    temporary file and nothing is returned. *)
Theorem export_document_returns (E : Env) (rq : Request) (document : Document)
    (w : World) (result : option bytes) (w' : World) :
  export_document E rq document w = (Ok result, w') ->
  exists import_type extension export_type name selected data options files',
    let classified := log_event (EGetSupportedServiceNames document) w in
    let output_path :=
      yielded_path E (outpath rq) ("." +:+ extension) classified in
    let export_url := systemPathToFileUrl E (abspath E output_path) in
    let detected :=
      log_event (EQueryTypeByURL export_url)
        (yielded_world E (outpath rq) ("." +:+ extension) None classified) in
    let output_props := output_properties name data options in
    get_doc_type E document w = (Ok import_type, classified) /\
    convert_to rq = Some extension /\
    queryTypeByURL E (log classified) export_url = Ok export_type /\
    export_type <> "" /\
    select_export_filter E rq import_type export_type detected
    = (Ok name, selected) /\
    parse_filter_options (filter_options rq) = Ok (data, options) /\
    doc_storeToURL E (log selected) (fs detected) document export_url output_props
    = (files', Ok tt) /\
    log w' = log selected ++ [EStoreToURL document export_url output_props] /\
    List.filter is_store (log w')
    = List.filter is_store (log w)
      ++ [EStoreToURL document export_url output_props] /\
    match outpath rq with
    | None => is_Some result /\ result = files' !! output_path
    | Some _ => result = None
    end.
Proof.
  intros Hrun. unfold export_document in Hrun. unfold bind at 1 in Hrun.
  pose proof (get_doc_type_world E document w) as Hworld.
  destruct (get_doc_type E document w) as [[import_type|e] w1] eqn:Htype;
    [|discriminate Hrun].
  cbn [snd] in Hworld. subst w1.
  destruct (convert_to rq) as [extension|] eqn:Hext; [|discriminate Hrun].
  unfold bind at 1, ret at 1 in Hrun.
  rewrite TempFileIfNeeded_scope in Hrun.
  set (classified := log_event (EGetSupportedServiceNames document) w) in *.
  set (output_path :=
         yielded_path E (outpath rq) ("." +:+ extension) classified) in *.
  set (inside :=
         yielded_world E (outpath rq) ("." +:+ extension) None classified) in *.
  set (export_url := systemPathToFileUrl E (abspath E output_path)) in *.
  assert (log inside = log classified) as Hinside.
  { unfold inside, yielded_world. by destruct (nonempty (outpath rq)). }
  match type of Hrun with
  | leave _ _ ?b = _ => destruct b as [r w2] eqn:Hbody
  end.
  assert (r = Ok result /\ log w' = log w2) as [-> Hlog'].
  { unfold leave in Hrun. cbn [fst snd] in Hrun.
    destruct (nonempty (outpath rq)); [by injection Hrun as -> ->|].
    destruct (fs w2 !! output_path); [|discriminate Hrun].
    by injection Hrun as -> <-. }
  clear Hrun. unfold bind at 1 in Hbody. unfold remote at 1 in Hbody.
  rewrite Hinside in Hbody.
  destruct (queryTypeByURL E (log classified) export_url)
    as [export_type|e] eqn:Hquery; [|discriminate Hbody].
  destruct (String.eqb export_type "") eqn:Hne; [discriminate Hbody|].
  apply String.eqb_neq in Hne.
  unfold bind at 1 in Hbody.
  set (detected := log_event (EQueryTypeByURL export_url) inside) in *.
  destruct (select_export_filter_world E rq import_type export_type detected)
    as [Hfs Hsel].
  destruct (select_export_filter E rq import_type export_type detected)
    as [[name|e] selected] eqn:Hselect; [|discriminate Hbody].
  cbn [snd] in Hfs, Hsel.
  unfold bind at 1, lift at 1 in Hbody.
  destruct (parse_filter_options (filter_options rq)) as [[data options]|e]
    eqn:Hparse; [|discriminate Hbody].
  unfold bind at 1 in Hbody. unfold storeToURL in Hbody. rewrite Hfs in Hbody.
  destruct (doc_storeToURL E (log selected) (fs detected) document export_url
              (output_properties name data options)) as [files' [[]|e]]
    eqn:Hstore; [|discriminate Hbody].
  exists import_type, extension, export_type, name, selected, data, options,
    files'.
  cbv zeta. fold classified. fold output_path. fold export_url. fold inside.
  fold detected.
  split; [done|]. split; [done|]. split; [done|]. split; [done|].
  split; [done|]. split; [done|]. split; [exact Hstore|].
  assert (log w2 = log selected
                   ++ [EStoreToURL document export_url
                         (output_properties name data options)] /\
          match outpath rq with
          | None => is_Some result /\ result = files' !! output_path
          | Some _ => result = None
          end) as [Hlog2 Hresult].
  { destruct (outpath rq).
    - by injection Hbody as <- <-.
    - unfold bind, read_file in Hbody. cbn [fs set_fs] in Hbody.
      destruct (files' !! output_path) as [content|] eqn:Hread;
        [|discriminate Hbody].
      injection Hbody as <- <-. split; [done|]. split; [by eexists | done]. }
  split; [by rewrite Hlog', Hlog2|]. split; [|exact Hresult].
  rewrite Hlog', Hlog2, List.filter_app.
  rewrite (extends_log_filter is_store _ _ Hsel). unfold detected.
  cbn [log log_event]. rewrite Hinside. unfold classified. cbn [log log_event].
  rewrite !List.filter_app. simpl. by rewrite !app_nil_r.
Qed.

Lemma export_document_returns_witness :
  exists name data options,
    parse_filter_options (filter_options Sample.to_pdf) = Ok (data, options) /\
    List.filter is_store
      (log (export_document Sample.engine Sample.to_pdf 7 (init Sample.files)).2)
    = [EStoreToURL 7 "file:///tmp/tmpa1b2c3.pdf"
         (output_properties name data options)].
Proof.
  assert (export_document Sample.engine Sample.to_pdf 7 (init Sample.files)
          = (Ok (Some Sample.pdf_bytes),
             (export_document Sample.engine Sample.to_pdf 7
                (init Sample.files)).2)) as Hrun
    by (vm_compute; reflexivity).
  destruct (export_document_returns Sample.engine Sample.to_pdf 7
              (init Sample.files) _ _ Hrun)
    as (import_type & extension & export_type & name & selected & data
        & options & files' & _ & Hext & _ & _ & _ & Hparse & _ & _ & Hstores & _).
  injection Hext as <-.
  exists name, data, options. split; [exact Hparse|].
  rewrite Hstores. vm_compute. reflexivity.
Defined.

(** ** What is sent with a load and with a store *)

Lemma preserves_bind_returns {A B} (I : World -> Prop) (Q : A -> Prop)
    (m : M A) (f : A -> M B) :
  returns Q m -> preserves I m -> (forall a, Q a -> preserves I (f a)) ->
  preserves I (bind m f).
Proof.
  intros HQ Hm Hf w Hw. unfold bind. specialize (Hm w Hw).
  destruct (m w) as [[a|e] w1] eqn:Hrun; simpl in *; [|done].
  apply Hf; [|done]. by apply (HQ w a w1).
Qed.

Lemma input_properties_read_only E rq :
  returns (fun props => exists rest,
             props = PropertyValue "ReadOnly" (VBool true) :: rest)
    (input_properties E rq).
Proof.
  unfold input_properties. destruct (nonempty (infiltername rq)) as [name|].
  - apply returns_bind. intros filters.
    destruct (get_filter_names filters !! name);
      [apply returns_ret; by eexists | apply returns_raise].
  - apply returns_ret. by eexists.
Qed.

Lemma guarded_export_document E rq document w0 :
  preserves (extends_log guarded w0) (export_document E rq document).
Proof.
  set (I := extends_log guarded w0).
  assert (forall ev w, guarded ev -> I w -> I (log_event ev w)) as I_log
    by (intros ev w; apply extends_log_event).
  assert (forall files w, I w -> I (set_fs files w)) as I_fs by done.
  assert (preserves I (get_available_export_filters E)) as I_export
    by (by apply extends_log_export).
  unfold export_document.
  apply preserves_bind; [by apply (preserves_get_doc_type E I guarded)|].
  intros import_type. apply preserves_bind.
  { destruct (convert_to rq); [apply preserves_ret | apply preserves_raise]. }
  intros suffix. apply (preserves_TempFileIfNeeded E I I_fs). intros output_path.
  apply preserves_bind; [by apply (preserves_remote I guarded)|].
  intros export_type. destruct (String.eqb export_type "");
    [apply preserves_raise|].
  apply preserves_bind; [by apply (preserves_select_export_filter E I)|].
  intros name. apply preserves_bind; [by intros w Hw|]. intros [data options].
  apply preserves_bind.
  { apply (preserves_storeToURL E I guarded I_log I_fs). simpl. by eexists _, _. }
  intros _. destruct (outpath rq); [apply preserves_ret|].
  apply preserves_bind; [apply preserves_read_file|]. intros output.
  apply preserves_ret.
Qed.

(** X22: every load [convert] asks for is read-only, and every store names
    its filter and has [Overwrite=True]: [ReadOnly=True] is the first
    property of each load, [FilterName] and [Overwrite=True] are the first
    two of each store. *)
Theorem convert_calls_guarded (E : Env) (rq : Request) (w : World) :
  exists evs,
    log (convert E rq w).2 = log w ++ evs /\ Forall guarded evs.
Proof.
  set (I := extends_log guarded w).
  assert (forall ev w', guarded ev -> I w' -> I (log_event ev w')) as I_log
    by (intros ev w'; apply extends_log_event).
  assert (forall files w', I w' -> I (set_fs files w')) as I_fs by done.
  assert (preserves I (get_available_import_filters E)) as I_import
    by (by apply extends_log_import).
  change (I (convert E rq w).2).
  assert (preserves I (convert E rq)) as Hconvert;
    [|apply Hconvert, extends_log_refl].
  unfold convert.
  apply (preserves_bind_returns I _ _ _ (input_properties_read_only E rq)).
  { by apply (preserves_input_properties E I). }
  intros input_props [rest ->].
  apply (preserves_TempFileIfNeeded E I I_fs). intros input_path.
  unfold convert_input.
  apply preserves_bind; [apply preserves_path_exists|]. intros found.
  destruct (negb found); [apply preserves_raise|].
  apply preserves_bind.
  { apply (preserves_remote I guarded I_log). simpl. by eexists. }
  intros [document|]; [|apply preserves_raise].
  apply preserves_bind.
  - destruct (update_index rq); [|apply preserves_ret].
    intros w1 (evs & Hlog & Hevs).
    destruct (update_indexes E 2 document w1) as [r w2] eqn:Hrun.
    destruct (update_indexes_run E document 2 w1 r w2 Hrun)
      as (evs' & Hlog' & Hevs' & _).
    exists (evs ++ evs'). simpl. split; [by rewrite Hlog', Hlog, app_assoc|].
    apply Forall_app. split; [done|].
    eapply Forall_impl; [exact Hevs'|]. intros ev Hev. by destruct ev.
  - intros _. apply preserves_try_finally.
    + apply guarded_export_document.
    + by apply (preserves_remote I guarded I_log).
Qed.

(** ** What [convert] returns *)

(** X23: a call of [convert] that returns gives bytes exactly when
    [outpath] is None and nothing when [outpath] is given, the empty string
    included; and it had a [convert_to]: no call without one returns. *)
Theorem convert_returns (E : Env) (rq : Request) (w : World)
    (result : option bytes) (w' : World) :
  convert E rq w = (Ok result, w') ->
  is_Some (convert_to rq) /\
  match outpath rq with
  | None => is_Some result
  | Some _ => result = None
  end.
Proof.
  intros Hrun. split.
  - destruct (convert_to rq) as [extension|] eqn:Hext; [by eexists|].
    destruct (convert_without_extension_raises E rq Hext w) as [e He].
    rewrite Hrun in He. discriminate He.
  - by apply (convert_result_shape E rq w result w').
Qed.

Lemma convert_returns_witness :
  is_Some (convert_to Sample.to_path_pdf) /\
  match outpath Sample.to_path_pdf with
  | None => is_Some (@None bytes)
  | Some _ => @None bytes = None
  end.
Proof.
  apply (convert_returns Sample.engine Sample.to_path_pdf (init Sample.files)
           None (convert Sample.engine Sample.to_path_pdf (init Sample.files)).2).
  vm_compute. reflexivity.
Defined.

(** ** The filter lookup when filters are unique *)

(** X24: when all export filters that serve a pair of types have one name
    (the engine's promise the loop relies on), the lookup does not depend
    on the order of the catalog: any reordering of the filters gives the
    same answer. *)
Theorem find_filter_in_order_free (filters filters' : list FilterDescriptor)
    (import_type export_type : string) :
  filters ≡ₚ filters' ->
  (forall f g, f ∈ filters -> g ∈ filters ->
     DocumentService f = import_type /\ Type_ f = export_type ->
     DocumentService g = import_type /\ Type_ g = export_type ->
     Name f = Name g) ->
  find_filter_in filters import_type export_type
  = find_filter_in filters' import_type export_type.
Proof.
  intros Hperm Hunique.
  destruct (find_filter_in_spec filters import_type export_type)
    as [(b1 & f1 & a1 & Heq1 & _ & Hs1 & Hr1)|[Hall1 Hr1]];
    destruct (find_filter_in_spec filters' import_type export_type)
    as [(b2 & f2 & a2 & Heq2 & _ & Hs2 & Hr2)|[Hall2 Hr2]];
    rewrite Hr1, Hr2; try done.
  - f_equal. apply Hunique; try done.
    + rewrite Heq1. apply elem_of_app. right. apply list_elem_of_here.
    + rewrite Hperm, Heq2. apply elem_of_app. right. apply list_elem_of_here.
  - exfalso. rewrite Forall_forall in Hall2. apply (Hall2 f1); [|done].
    rewrite <- Hperm, Heq1. apply elem_of_app. right. apply list_elem_of_here.
  - exfalso. rewrite Forall_forall in Hall1. apply (Hall1 f2); [|done].
    rewrite Hperm, Heq2. apply elem_of_app. right. apply list_elem_of_here.
Qed.

Lemma find_filter_in_order_free_witness :
  find_filter_in [Sample.writer_pdf; Sample.html_writer]
    "com.sun.star.text.TextDocument" "generic_HTML"
  = find_filter_in [Sample.html_writer; Sample.writer_pdf]
      "com.sun.star.text.TextDocument" "generic_HTML".
Proof.
  apply (find_filter_in_order_free [Sample.writer_pdf; Sample.html_writer]
           [Sample.html_writer; Sample.writer_pdf]).
  - apply Permutation_swap.
  - intros f g Hf Hg [_ Htf] [_ Htg].
    apply elem_of_cons in Hf as [->|Hf]; [discriminate Htf|].
    apply list_elem_of_singleton in Hf as ->.
    apply elem_of_cons in Hg as [->|Hg]; [discriminate Htg|].
    by apply list_elem_of_singleton in Hg as ->.
Defined.

(** X25: when the options parse, the parser has dropped nothing and added
    nothing: every option string gave exactly one property, a named one or
    a bare one, so repeated names are all kept. *)
Theorem parse_filter_options_length (filter_options : list string)
    (data options : list property_value) :
  parse_filter_options filter_options = Ok (data, options) ->
  length data + length options = length filter_options.
Proof.
  unfold parse_filter_options. rewrite parse_filter_loop_ok. simpl.
  intros (d' & o' & <- & <- & Hd & Ho).
  apply Forall2_length in Hd, Ho. rewrite <- Hd, <- Ho.
  clear Hd Ho. unfold named_options, bare_options. simpl.
  induction filter_options as [|o l IH]; [done|]. simpl.
  destruct (Str.contains "=" o); simpl; lia.
Qed.

Lemma parse_filter_options_length_witness :
  length [PropertyValue "a" (VInt 1); PropertyValue "a" (VInt 2)]
  + length [PropertyValue "FilterOptions" (VStr "b")]
  = length ["a=1"; "b"; "a=2"].
Proof.
  apply (parse_filter_options_length ["a=1"; "b"; "a=2"]). reflexivity.
Defined.
